(** * Session initialisation of the miniapp boilerplate

    A shallow embedding of the two React hooks that resolve the current
    user: [useUser] (src/hooks/useUser.ts) and [useFarcasterWallet]
    (its [connectWallet] callback).  Both are asynchronous functions; an
    [await] is a suspension point at which React may run the clean-up of
    the effect, so the hooks are embedded as programs over an effect
    signature and run by an interleaving semantics over the component. *)

From Stdlib Require Import ZArith String Ascii List Bool Arith Lia.
From stdpp Require Import base option list.
Import ListNotations.

Local Open Scope string_scope.
Local Open Scope list_scope.

Set Implicit Arguments.

(** ** JavaScript values *)

(** A value of type [string | undefined]. *)
Abbreviation jsstring := (option string).

(** [!!s] on a [string | undefined]: the empty string is falsy. *)
Definition truthy (s : jsstring) : bool :=
  match s with
  | Some v => negb (String.eqb v "")
  | None => false
  end.

(** [a || b] on two values of type [string | undefined]. *)
Definition js_or (a b : jsstring) : jsstring :=
  if truthy a then a else b.

(** What a [catch] clause receives: an [Error] object with its message,
    or any other thrown value. *)
Inductive exn : Type :=
| ErrorObject (message : string)
| ThrownValue.

(** How a promise settles. *)
Inductive settled (A : Type) : Type :=
| Fulfilled (a : A)
| Rejected (e : exn).
Arguments Fulfilled {A} a.
Arguments Rejected {A} e.

(** ** Programs over an effect signature *)

Section Prog.
Context {E : Type -> Type}.

Inductive prog (A : Type) : Type :=
| Ret (a : A)
| Throw (e : exn)
| Vis {X : Type} (e : E X) (k : X -> prog A).

Arguments Ret {A} a.
Arguments Throw {A} e.
Arguments Vis {A X} e k.

Fixpoint bind {A B} (p : prog A) (f : A -> prog B) : prog B :=
  match p with
  | Ret a => f a
  | Throw e => Throw e
  | Vis e k => Vis e (fun x => bind (k x) f)
  end.

(** [try { p } catch (e) { h e }] *)
Fixpoint try_catch {A} (p : prog A) (h : exn -> prog A) : prog A :=
  match p with
  | Ret a => Ret a
  | Throw e => h e
  | Vis e k => Vis e (fun x => try_catch (k x) h)
  end.

Definition trigger {X} (e : E X) : prog X := Vis e (fun x => Ret x).
End Prog.

Arguments prog E A : clear implicits.
Arguments Ret {E A} a.
Arguments Throw {E A} e.
Arguments Vis {E A X} e k.

Declare Scope prog_scope.
Delimit Scope prog_scope with prog.
Notation "x <- p ;; q" := (bind p (fun x => q))
  (at level 100, p at next level, right associativity) : prog_scope.
Notation "p ;; q" := (bind p (fun _ => q))
  (at level 100, right associativity) : prog_scope.
Notation "'TRY' p 'CATCH' e => h" := (try_catch p (fun e => h))
  (at level 10, e name, p at level 200, h at level 200) : prog_scope.

(** ** Data model of [useUser] *)

(** [location?: { placeId?, description? } | null]: absent, [null] or an
    object. *)
Record Location : Type := {
  placeId : jsstring;
  description : jsstring
}.

Inductive nullable (A : Type) : Type :=
| Null
| Obj (a : A).
Arguments Null {A}.
Arguments Obj {A} a.

(** [interface FarcasterUser] *)
Module FarcasterUser.
Record t : Type := {
  fid : Z;
  primaryAddress : jsstring;
  displayName : jsstring;
  username : jsstring;
  pfpUrl : jsstring;
  location : option (nullable Location)
}.
End FarcasterUser.

(** The body of [/api/me] as far as the hook reads it: [null], or an
    object of which only [primaryAddress] is looked at. *)
Record ApiUser : Type := {
  api_primaryAddress : jsstring
}.

(** [interface UserData]: the record the hook hands to its consumers. *)
Module UserData.
Record t : Type := {
  address : jsstring;
  fid : option Z;
  username : jsstring;
  displayName : jsstring;
  pfpUrl : jsstring;
  location : option (nullable Location);
  isMiniApp : bool;
  isLoading : bool;
  isWalletConnected : bool;
  error : jsstring
}.
End UserData.

(** What the effect closes over at render time: the values of
    [useAccount()] and whether [connectors] holds one whose id is
    ['farcasterMiniApp']. *)
Record deps : Type := {
  walletAddress : jsstring;
  isConnected : bool;
  hasFarcasterConnector : bool
}.

(** ** Effects of [initializeUser] *)

(** The promises the function awaits, indexed by what they resolve to. *)
Inductive call : Type -> Type :=
| isInMiniApp : call bool                              (* sdk.isInMiniApp() *)
| context : call (option FarcasterUser.t)              (* (await sdk.context).user *)
| quickAuth_fetch : call bool                          (* res.ok of sdk.quickAuth.fetch("/api/me") *)
| res_json : call (nullable ApiUser)                   (* res.json() *)
| eth_requestAccounts : call (option (list string)).   (* ethProvider.request(...) *)

(** [console.log], [console.warn], [console.error]; of a message only
    the leading text is kept. *)
Inductive level : Type := LogLevel | WarnLevel | ErrorLevel.

Inductive eff : Type -> Type :=
| Await {X : Type} (c : call X) : eff (settled X)
| SetUserData (f : UserData.t -> UserData.t) : eff unit
| IsMounted : eff bool
| EthProvider : eff bool      (* is sdk.wallet.ethProvider there? *)
| Connect : eff unit          (* connect({ connector: farcasterConnector }) *)
| Ready : eff unit            (* sdk.actions.ready(), not awaited *)
| Console (l : level) (msg : string) : eff unit.

Local Open Scope prog_scope.

(** [await p]: the value the promise is fulfilled with, or a throw of
    what it is rejected with. *)
Definition await {X} (c : call X) : prog eff X :=
  r <- trigger (Await c) ;;
  match r with
  | Fulfilled a => Ret a
  | Rejected e => Throw e
  end.

Definition setUserData (f : UserData.t -> UserData.t) : prog eff unit :=
  trigger (SetUserData f).

Definition console (l : level) (msg : string) : prog eff unit :=
  trigger (Console l msg).

(** [useState<UserData>({ isMiniApp: false, isLoading: true,
    isWalletConnected: false })] *)
Definition initialUserData : UserData.t := {|
  UserData.address := None;
  UserData.fid := None;
  UserData.username := None;
  UserData.displayName := None;
  UserData.pfpUrl := None;
  UserData.location := None;
  UserData.isMiniApp := false;
  UserData.isLoading := true;
  UserData.isWalletConnected := false;
  UserData.error := None
|}.

(** [{ ...prev, isLoading: true, error: undefined }] *)
Definition startLoading (prev : UserData.t) : UserData.t := {|
  UserData.address := UserData.address prev;
  UserData.fid := UserData.fid prev;
  UserData.username := UserData.username prev;
  UserData.displayName := UserData.displayName prev;
  UserData.pfpUrl := UserData.pfpUrl prev;
  UserData.location := UserData.location prev;
  UserData.isMiniApp := UserData.isMiniApp prev;
  UserData.isLoading := true;
  UserData.isWalletConnected := UserData.isWalletConnected prev;
  UserData.error := None
|}.

(** The record of lines 136-146. *)
Definition hostRecord (farcasterUser : FarcasterUser.t) (connectedAddress : jsstring)
  : UserData.t := {|
  UserData.address := connectedAddress;
  UserData.fid := Some (FarcasterUser.fid farcasterUser);
  UserData.username := FarcasterUser.username farcasterUser;
  UserData.displayName := FarcasterUser.displayName farcasterUser;
  UserData.pfpUrl := FarcasterUser.pfpUrl farcasterUser;
  UserData.location := FarcasterUser.location farcasterUser;
  UserData.isMiniApp := true;
  UserData.isLoading := false;
  UserData.isWalletConnected := truthy connectedAddress;
  UserData.error := None
|}.

(** The records of lines 151-156, 161-166 and 183-188: no address, no
    identity, an error message. *)
Definition failedRecord (miniApp : bool) (msg : string) : UserData.t := {|
  UserData.address := None;
  UserData.fid := None;
  UserData.username := None;
  UserData.displayName := None;
  UserData.pfpUrl := None;
  UserData.location := None;
  UserData.isMiniApp := miniApp;
  UserData.isLoading := false;
  UserData.isWalletConnected := false;
  UserData.error := Some msg
|}.

(** The record of lines 172-177 (regular browser flow). *)
Definition browserRecord (d : deps) : UserData.t := {|
  UserData.address :=
    if isConnected d && truthy (walletAddress d) then walletAddress d else None;
  UserData.fid := None;
  UserData.username := None;
  UserData.displayName := None;
  UserData.pfpUrl := None;
  UserData.location := None;
  UserData.isMiniApp := false;
  UserData.isLoading := false;
  UserData.isWalletConnected := isConnected d;
  UserData.error := None
|}.

(** [apiUserData?.primaryAddress] *)
Definition api_primary (apiUserData : nullable ApiUser) : jsstring :=
  match apiUserData with
  | Null => None
  | Obj a => api_primaryAddress a
  end.

(** Lines 94-105: the supplementary profile; every fault leaves
    [apiUserData] at [null]. *)
Definition fetchApiUserData : prog eff (nullable ApiUser) :=
  TRY (res_ok <- await quickAuth_fetch ;;
       if res_ok : bool then await res_json else Ret Null)
  CATCH apiError =>
      (console WarnLevel "Failed to fetch additional user data from API:" ;;
       Ret Null).

(** Lines 112-134: the automatic wallet request.  The value is that of
    [connectedAddress] after the [try]; it starts as the hint and is
    reassigned only when the provider hands back a first account.
    [console.log], [connectors.find] and wagmi's [connect] do not throw. *)
Definition autoConnect (d : deps) (hint : jsstring) : prog eff jsstring :=
  TRY (ethProvider <- trigger EthProvider ;;
       if ethProvider : bool then
         accounts <- await eth_requestAccounts ;;
         match accounts with
         | Some (account0 :: _) =>
             console LogLevel "Farcaster wallet connected:" ;;
             (if hasFarcasterConnector d && negb (isConnected d)
              then trigger Connect else Ret tt) ;;
             Ret (Some account0)
         | _ => Ret hint
         end
       else Ret hint)
  CATCH walletError =>
      (console WarnLevel
         "Wallet connection skipped (user may have declined or no wallet):" ;;
       Ret hint).

(** Lines 78-191. *)
Definition initializeUser (d : deps) : prog eff unit :=
  TRY (setUserData startLoading ;;
       isMiniApp <- await isInMiniApp ;;
       if isMiniApp : bool then
         TRY (farcasterUser <- await context ;;
              isMounted <- trigger IsMounted ;;
              match farcasterUser, isMounted with
              | Some farcasterUser, true =>
                  apiUserData <- fetchApiUserData ;;
                  connectedAddress <-
                    autoConnect d
                      (js_or (FarcasterUser.primaryAddress farcasterUser)
                             (api_primary apiUserData)) ;;
                  setUserData (fun _ => hostRecord farcasterUser connectedAddress) ;;
                  trigger Ready
              | _, _ =>
                  if isMounted : bool then
                    setUserData (fun _ =>
                      failedRecord true "Unable to get user data from Farcaster")
                  else Ret tt
              end)
         CATCH farcasterError =>
             (console ErrorLevel "Farcaster authentication failed:" ;;
              isMounted <- trigger IsMounted ;;
              if isMounted : bool then
                setUserData (fun _ =>
                  failedRecord true "Farcaster authentication failed")
              else Ret tt)
       else
         isMounted <- trigger IsMounted ;;
         if isMounted : bool then setUserData (fun _ => browserRecord d)
         else Ret tt)
  CATCH error =>
      (console ErrorLevel "Error initializing user:" ;;
       isMounted <- trigger IsMounted ;;
       if isMounted : bool then
         setUserData (fun _ => failedRecord false "Failed to initialize user data")
       else Ret tt).

(** ** The component at run time *)

(** What the environment answers to one run of the effect: how each
    awaited promise settles, and whether the host provider exists.  Every
    promise is awaited at most once per run. *)
Record oracle : Type := {
  on_isInMiniApp : settled bool;
  on_context : settled (option FarcasterUser.t);
  on_quickAuth_fetch : settled bool;
  on_res_json : settled (nullable ApiUser);
  has_ethProvider : bool;
  on_eth_requestAccounts : settled (option (list string))
}.

Definition answer (o : oracle) {X} (c : call X) : settled X :=
  match c in call T return settled T with
  | isInMiniApp => on_isInMiniApp o
  | context => on_context o
  | quickAuth_fetch => on_quickAuth_fetch o
  | res_json => on_res_json o
  | eth_requestAccounts => on_eth_requestAccounts o
  end.

(** What an outside observer sees of a run, tagged with the number of
    the run that did it. *)
Inductive observation : Type :=
| Requested {X : Type} (c : call X)     (* the promise was created *)
| Committed (r : UserData.t)            (* setUserData produced r *)
| Connected
| ReadySignal
| Logged (l : level) (msg : string).

Record store : Type := {
  userData : UserData.t;                (* the state cell of [useState] *)
  trace : list (nat * observation)      (* oldest first *)
}.

(** The value an effect comes back with. *)
Definition result (o : oracle) (mounted : bool) {X} (e : eff X) : X :=
  match e in eff T return T with
  | Await c => answer o c
  | SetUserData _ => tt
  | IsMounted => mounted
  | EthProvider => has_ethProvider o
  | Connect => tt
  | Ready => tt
  | Console _ _ => tt
  end.

(** The state cell after an effect. *)
Definition commit {X} (e : eff X) (prev : UserData.t) : UserData.t :=
  match e with
  | SetUserData f => f prev
  | _ => prev
  end.

(** What an observer sees of an effect. *)
Definition seen {X} (e : eff X) (prev : UserData.t) : option observation :=
  match e with
  | Await c => Some (Requested c)
  | SetUserData f => Some (Committed (f prev))
  | IsMounted => None
  | EthProvider => None
  | Connect => Some Connected
  | Ready => Some ReadySignal
  | Console l msg => Some (Logged l msg)
  end.

(** The function is suspended on an [await], and on nothing else. *)
Definition suspends {X} (e : eff X) : bool :=
  match e with
  | Await _ => true
  | _ => false
  end.

Definition tagged (i : nat) (ob : option observation)
  : list (nat * observation) :=
  match ob with
  | Some ob => [(i, ob)]
  | None => []
  end.

(** Run [i] performs the effect [e]. *)
Definition perform (i : nat) {X} (e : eff X) (s : store) : store :=
  {| userData := commit e (userData s);
     trace := trace s ++ tagged i (seen e (userData s)) |}.

(** Run [p] up to its next [await].  The result is the store and what is
    left to run once the awaited promise has settled ([None] when the
    function has returned). *)
Fixpoint exec (o : oracle) (i : nat) (mounted : bool) (p : prog eff unit)
    (s : store) : store * option (prog eff unit) :=
  match p with
  | Ret _ => (s, None)
  | Throw _ => (s, None)
  | Vis e k =>
      let x := result o mounted e in
      if suspends e then (perform i e s, Some (k x))
      else exec o i mounted (k x) (perform i e s)
  end.

(** One run of the effect: its closure ([deps], the flag [isMounted]),
    the environment it meets, and its continuation while suspended. *)
Record attempt : Type := {
  a_deps : deps;
  a_oracle : oracle;
  a_isMounted : bool;
  a_rest : option (prog eff unit)
}.

Record world : Type := {
  w_store : store;
  w_attempts : list attempt             (* in the order they started *)
}.

Definition init : world :=
  {| w_store := {| userData := initialUserData; trace := [] |};
     w_attempts := [] |}.

(** The clean-up function of lines 195-197, of the latest run. *)
Definition unmountAttempt (a : attempt) : attempt :=
  {| a_deps := a_deps a; a_oracle := a_oracle a;
     a_isMounted := false; a_rest := a_rest a |}.

Definition cleanup (l : list attempt) : list attempt :=
  alter unmountAttempt (pred (length l)) l.

(** What can happen to the component.  A render that re-runs the effect
    first runs the clean-up of the previous run. *)
Inductive event : Type :=
| Render (d : deps) (o : oracle)   (* mount, or a dependency changed *)
| Unmount
| Settle (i : nat).                (* the promise run [i] awaits settles *)

Definition step (w : world) (ev : event) : world :=
  match ev with
  | Render d o =>
      let old := cleanup (w_attempts w) in
      let i := length old in
      let '(s, rest) := exec o i true (initializeUser d) (w_store w) in
      {| w_store := s;
         w_attempts := old ++ [{| a_deps := d; a_oracle := o;
                                  a_isMounted := true; a_rest := rest |}] |}
  | Unmount =>
      {| w_store := w_store w; w_attempts := cleanup (w_attempts w) |}
  | Settle i =>
      match w_attempts w !! i with
      | Some a =>
          match a_rest a with
          | Some p =>
              let '(s, rest) :=
                exec (a_oracle a) i (a_isMounted a) p (w_store w) in
              {| w_store := s;
                 w_attempts :=
                   <[i := {| a_deps := a_deps a; a_oracle := a_oracle a;
                             a_isMounted := a_isMounted a; a_rest := rest |}]>
                     (w_attempts w) |}
          | None => w
          end
      | None => w
      end
  end.

Definition run (evs : list event) : world := fold_left step evs init.

Inductive reachable : world -> Prop :=
| reachable_init : reachable init
| reachable_step w ev : reachable w -> reachable (step w ev).

(** The record consumers see, and what a given run has done. *)
Definition record_of (w : world) : UserData.t := userData (w_store w).

Definition is_ready (ob : observation) : bool :=
  match ob with
  | ReadySignal => true
  | _ => false
  end.

Definition is_wallet_request (ob : observation) : bool :=
  match ob with
  | Requested c =>
      match c with
      | eth_requestAccounts => true
      | _ => false
      end
  | _ => false
  end.

Definition by_attempt (i : nat) (what : observation -> bool)
    (x : nat * observation) : bool :=
  Nat.eqb (fst x) i && what (snd x).

Definition count (i : nat) (what : observation -> bool) (w : world) : nat :=
  length (List.filter (by_attempt i what) (trace (w_store w))).

Definition ready_count (i : nat) (w : world) : nat := count i is_ready w.

Definition wallet_requests (i : nat) (w : world) : nat :=
  count i is_wallet_request w.

(** Has run [i] returned? *)
Definition finished (i : nat) (w : world) : bool :=
  match w_attempts w !! i with
  | Some a => match a_rest a with None => true | Some _ => false end
  | None => false
  end.

(** Is the [isMounted] flag of run [i] still set? *)
Definition live (i : nat) (w : world) : bool :=
  match w_attempts w !! i with
  | Some a => a_isMounted a
  | None => false
  end.

(** ** [useFarcasterWallet]: the [connectWallet] callback *)

Module FarcasterWallet.

(** What the callback closes over: [useAccount()] and [connectors]. *)
Record deps : Type := {
  address : jsstring;
  isConnected : bool;
  hasFarcasterConnector : bool
}.

Inductive call : Type -> Type :=
| isInMiniApp : call bool
| eth_requestAccounts : call (option (list string)).

Inductive eff : Type -> Type :=
| Await {X : Type} (c : call X) : eff (settled X)
| SetIsConnecting (b : bool) : eff unit
| SetError (e : jsstring) : eff unit        (* [None] is [null] *)
| EthProvider : eff bool
| Connect : eff unit
| Console (l : level) (msg : string) : eff unit.

Definition await {X} (c : call X) : prog eff X :=
  r <- trigger (Await c) ;;
  match r with
  | Fulfilled a => Ret a
  | Rejected e => Throw e
  end.

(** [err instanceof Error ? err.message : 'Failed to connect wallet'] *)
Definition messageOf (err : exn) : string :=
  match err with
  | ErrorObject message => message
  | ThrownValue => "Failed to connect wallet"
  end.

(** Lines 56-111; [None] is the [null] result. *)
Definition connectWallet (d : deps) : prog eff jsstring :=
  if isConnected d && truthy (address d) then Ret (address d)
  else
    trigger (SetIsConnecting true) ;;
    trigger (SetError None) ;;
    TRY (isMiniApp <- await isInMiniApp ;;
         if negb isMiniApp then
           trigger (SetError (Some "Not running in a Farcaster miniapp")) ;;
           trigger (SetIsConnecting false) ;;
           Ret None
         else
           ethProvider <- trigger EthProvider ;;
           if negb ethProvider then
             trigger (SetError (Some "Farcaster wallet provider not available")) ;;
             trigger (SetIsConnecting false) ;;
             Ret None
           else
             accounts <- await eth_requestAccounts ;;
             match accounts with
             | Some (account0 :: _) =>
                 trigger (Console LogLevel "Wallet connected via Farcaster SDK:") ;;
                 (if hasFarcasterConnector d then trigger Connect else Ret tt) ;;
                 trigger (SetIsConnecting false) ;;
                 Ret (Some account0)
             | _ =>
                 trigger (SetError (Some "No accounts returned from wallet")) ;;
                 trigger (SetIsConnecting false) ;;
                 Ret None
             end)
    CATCH err =>
        (trigger (Console ErrorLevel "Wallet connection failed:") ;;
         trigger (SetError (Some (messageOf err))) ;;
         trigger (SetIsConnecting false) ;;
         Ret None).



End FarcasterWallet.

(** ** Wallet addresses *)

Definition is_digit (c : ascii) : bool :=
  let n := nat_of_ascii c in (48 <=? n)%nat && (n <=? 57)%nat.

Definition is_lower_hex (c : ascii) : bool :=
  let n := nat_of_ascii c in is_digit c || ((97 <=? n)%nat && (n <=? 102)%nat).

Definition is_hex (c : ascii) : bool :=
  let n := nat_of_ascii c in is_lower_hex c || ((65 <=? n)%nat && (n <=? 70)%nat).

Fixpoint all_chars (p : ascii -> bool) (s : string) : bool :=
  match s with
  | EmptyString => true
  | String c rest => p c && all_chars p rest
  end.

(** [0x] followed by 40 characters that satisfy [p]. *)
Definition address_of (p : ascii -> bool) (s : string) : bool :=
  match s with
  | String "0" (String "x" digits) =>
      Nat.eqb (String.length digits) 40 && all_chars p digits
  | _ => false
  end.

Definition wellFormedAddress : string -> bool := address_of is_hex.
Definition lowercaseAddress : string -> bool := address_of is_lower_hex.

Definition lower (c : ascii) : ascii :=
  let n := nat_of_ascii c in
  if (65 <=? n)%nat && (n <=? 90)%nat then ascii_of_nat (n + 32) else c.

Fixpoint toLowerCase (s : string) : string :=
  match s with
  | EmptyString => EmptyString
  | String c rest => String (lower c) (toLowerCase rest)
  end.

(** An address field that is present and well formed. *)
Definition hasAddress (a : jsstring) : Prop :=
  match a with
  | Some s => wellFormedAddress s = true
  | None => False
  end.

(** An address field that is absent or well formed. *)
Definition addressOrAbsent (a : jsstring) : Prop :=
  match a with
  | Some s => wellFormedAddress s = true
  | None => True
  end.

(** ** Properties of records *)

Definition identityAbsent (r : UserData.t) : Prop :=
  UserData.fid r = None /\ UserData.username r = None /\
  UserData.displayName r = None /\ UserData.pfpUrl r = None /\
  UserData.location r = None.

Definition identityOf (u : FarcasterUser.t) (r : UserData.t) : Prop :=
  UserData.fid r = Some (FarcasterUser.fid u) /\
  UserData.username r = FarcasterUser.username u /\
  UserData.displayName r = FarcasterUser.displayName u /\
  UserData.pfpUrl r = FarcasterUser.pfpUrl u /\
  UserData.location r = FarcasterUser.location u.

(** A record outside the miniapp carries no identity. *)
Definition standaloneAnonymous (r : UserData.t) : Prop :=
  UserData.isMiniApp r = false -> identityAbsent r.

(** A record that reports a connected wallet carries a well-formed
    address. *)
Definition connectedHasAddress (r : UserData.t) : Prop :=
  UserData.isWalletConnected r = true -> hasAddress (UserData.address r).

(** ** What the environment hands over *)

(** The supplementary profile a run ends up with (lines 94-105). *)
Definition apiUserData_of (o : oracle) : nullable ApiUser :=
  match on_quickAuth_fetch o with
  | Fulfilled true =>
      match on_res_json o with
      | Fulfilled body => body
      | Rejected _ => Null
      end
  | _ => Null
  end.

(** The initial value of [connectedAddress] (line 110). *)
Definition hint_of (farcasterUser : FarcasterUser.t) (o : oracle) : jsstring :=
  js_or (FarcasterUser.primaryAddress farcasterUser)
        (api_primary (apiUserData_of o)).

(** The wallet request hands back no account: it is rejected (declined,
    transport fault), yields no array or an empty one, or there is no
    provider to ask. *)
Definition noLiveAccount (o : oracle) : Prop :=
  has_ethProvider o = false \/
  (exists e, on_eth_requestAccounts o = Rejected e) \/
  on_eth_requestAccounts o = Fulfilled None \/
  on_eth_requestAccounts o = Fulfilled (Some []).

(** Every address an answer carries is well formed. *)
Definition wf_answer {X} (c : call X) : settled X -> Prop :=
  match c in call T return settled T -> Prop with
  | context => fun r =>
      match r with
      | Fulfilled (Some u) => addressOrAbsent (FarcasterUser.primaryAddress u)
      | _ => True
      end
  | res_json => fun r =>
      match r with
      | Fulfilled (Obj a) => addressOrAbsent (api_primaryAddress a)
      | _ => True
      end
  | eth_requestAccounts => fun r =>
      match r with
      | Fulfilled (Some accounts) =>
          Forall (fun s => wellFormedAddress s = true) accounts
      | _ => True
      end
  | _ => fun _ => True
  end.

Definition wf_oracle (o : oracle) : Prop :=
  forall X (c : call X), wf_answer c (answer o c).

(** wagmi reports an address whenever it reports a connection, and a
    well-formed one. *)
Definition wf_deps (d : deps) : Prop :=
  addressOrAbsent (walletAddress d) /\
  (isConnected d = true -> hasAddress (walletAddress d)).

Definition wf_event (ev : event) : Prop :=
  match ev with
  | Render d o => wf_deps d /\ wf_oracle o
  | _ => True
  end.

(** ** Properties of programs that hold along every path *)

(** The values an effect may come back with. *)
Definition wf_result {X} (e : eff X) : X -> Prop :=
  match e in eff T return T -> Prop with
  | Await c => wf_answer c
  | _ => fun _ => True
  end.

Definition any_result {X} (e : eff X) (x : X) : Prop := True.

(** Every [setUserData] keeps [J]. *)
Definition commits_keep (J : UserData.t -> Prop) {X} (e : eff X) : Prop :=
  match e with
  | SetUserData f => forall r, J r -> J (f r)
  | _ => True
  end.

Inductive always (allowed : forall X, eff X -> X -> Prop)
    (good : forall X, eff X -> Prop) : prog eff unit -> Prop :=
| always_Ret a : always allowed good (Ret a)
| always_Throw e : always allowed good (Throw e)
| always_Vis X (e : eff X) k :
    good X e ->
    (forall x, allowed X e x -> always allowed good (k x)) ->
    always allowed good (Vis e k).

(** ** Scenarios *)

Definition account_A : string := "0xABCDEF0123456789ABCDEF0123456789ABCDEF01".
Definition account_B : string := "0x1111111111111111111111111111111111111111".

(** A host profile without a primary address. *)
Definition alice : FarcasterUser.t := {|
  FarcasterUser.fid := 7;
  FarcasterUser.primaryAddress := None;
  FarcasterUser.displayName := Some "Alice";
  FarcasterUser.username := Some "alice";
  FarcasterUser.pfpUrl := None;
  FarcasterUser.location := None
|}.

Definition disconnected : deps :=
  {| walletAddress := None; isConnected := false;
     hasFarcasterConnector := true |}.

Definition connected_B : deps :=
  {| walletAddress := Some account_B; isConnected := true;
     hasFarcasterConnector := true |}.

(** Inside the host: the identity fetch gives [user], the backend fetch
    fails, the provider exists and its request settles as [wallet]. *)
Definition hostOracle (user : option FarcasterUser.t)
    (wallet : settled (option (list string))) : oracle := {|
  on_isInMiniApp := Fulfilled true;
  on_context := Fulfilled user;
  on_quickAuth_fetch := Rejected (ErrorObject "fetch failed");
  on_res_json := Fulfilled Null;
  has_ethProvider := true;
  on_eth_requestAccounts := wallet
|}.

(** Inside the host: the identity fetch gives [user], the backend fetch
    is ok and its body carries [primary], the provider exists and its
    request settles as [wallet]. *)
Definition backendOracle (user : option FarcasterUser.t) (primary : jsstring)
    (wallet : settled (option (list string))) : oracle := {|
  on_isInMiniApp := Fulfilled true;
  on_context := Fulfilled user;
  on_quickAuth_fetch := Fulfilled true;
  on_res_json := Fulfilled (Obj {| api_primaryAddress := primary |});
  has_ethProvider := true;
  on_eth_requestAccounts := wallet
|}.

(** Outside the host. *)
Definition browserOracle : oracle := {|
  on_isInMiniApp := Fulfilled false;
  on_context := Fulfilled None;
  on_quickAuth_fetch := Fulfilled false;
  on_res_json := Fulfilled Null;
  has_ethProvider := false;
  on_eth_requestAccounts := Fulfilled None
|}.

(** The host check itself is rejected. *)
Definition faultyDetector : oracle := {|
  on_isInMiniApp := Rejected (ErrorObject "host check failed");
  on_context := Fulfilled None;
  on_quickAuth_fetch := Fulfilled false;
  on_res_json := Fulfilled Null;
  has_ethProvider := false;
  on_eth_requestAccounts := Fulfilled None
|}.

(** One run on a fresh component, with nothing in between: the mount and
    the (at most five) promises it awaits. *)
Definition uninterrupted (d : deps) (o : oracle) : world :=
  run [Render d o; Settle 0; Settle 0; Settle 0; Settle 0; Settle 0].

Definition scenario_A : world :=
  uninterrupted disconnected
    (hostOracle (Some alice) (Fulfilled (Some [account_A]))).


(** The first run is suspended on the wallet request when a dependency
    changes; React cleans it up and starts the second run. *)
Definition superseded_prefix : list event :=
  [Render disconnected (hostOracle (Some alice) (Fulfilled (Some [account_A])));
   Settle 0; Settle 0; Settle 0;
   Render connected_B (hostOracle (Some alice) (Fulfilled (Some [account_B])))].

(** The second run completes; then the request of the first one settles. *)
Definition second_run_done : list event :=
  superseded_prefix ++ [Settle 1; Settle 1; Settle 1; Settle 1].

Definition stale_settles : list event := second_run_done ++ [Settle 0].

(** The first run is suspended on the wallet request when the component
    is unmounted; then the request settles. *)
Definition unmounted_prefix : list event :=
  [Render disconnected (hostOracle (Some alice) (Fulfilled (Some [account_A])));
   Settle 0; Settle 0; Settle 0; Unmount].

Definition unmounted_settles : list event := unmounted_prefix ++ [Settle 0].

(** ** Summaries of a host run *)

(** The first account of the wallet request, when there is a provider
    and the request yields one (lines 114-121). *)
Definition liveAccount_of (o : oracle) : jsstring :=
  if has_ethProvider o then
    match on_eth_requestAccounts o with
    | Fulfilled (Some (account0 :: _)) => Some account0
    | _ => None
    end
  else None.

(** The value of [connectedAddress] at line 136. *)
Definition connectedAddress_of (farcasterUser : FarcasterUser.t) (o : oracle)
  : jsstring :=
  match liveAccount_of o with
  | Some account0 => Some account0
  | None => hint_of farcasterUser o
  end.

Definition is_connect (ob : observation) : bool :=
  match ob with
  | Connected => true
  | _ => false
  end.

(** ** Readings of the specification that the code does not follow *)

(** "Degrades to standalone-like handling using only the wallet signal":
    the record reports the wallet as the browser flow would. *)
Definition degradesToStandalone (d : deps) (r : UserData.t) : Prop :=
  UserData.address r = UserData.address (browserRecord d) /\
  UserData.isWalletConnected r = UserData.isWalletConnected (browserRecord d) /\
  UserData.error r = None.


(** "Rendered as a lowercase hex string with 0x prefix". *)
Definition rendersLowercase (r : UserData.t) : Prop :=
  match UserData.address r with
  | Some s => lowercaseAddress s = true
  | None => True
  end.



(** The provider hands back something that is no address. *)
Definition scenario_short_account : world :=
  uninterrupted disconnected
    (hostOracle (Some alice) (Fulfilled (Some ["0x1234"]))).

(** A host profile with a primary address. *)
Definition bob : FarcasterUser.t := {|
  FarcasterUser.fid := 8;
  FarcasterUser.primaryAddress := Some account_B;
  FarcasterUser.displayName := None;
  FarcasterUser.username := Some "bob";
  FarcasterUser.pfpUrl := None;
  FarcasterUser.location := Some Null
|}.

(** ** Invariants of the component *)

(** The environment of a run answers within [allowed]. *)
Definition answers_within (allowed : forall X, eff X -> X -> Prop)
    (o : oracle) : Prop :=
  forall mounted X (e : eff X), allowed X e (result o mounted e).

(** A run whose environment answers within [allowed] and whose
    continuation keeps [J] at every commit. *)
Definition attempt_keeps (allowed : forall X, eff X -> X -> Prop)
    (J : UserData.t -> Prop) (a : attempt) : Prop :=
  answers_within allowed (a_oracle a) /\
  match a_rest a with
  | Some p => always allowed (@commits_keep J) p
  | None => True
  end.

Definition world_keeps (allowed : forall X, eff X -> X -> Prop)
    (J : UserData.t -> Prop) (w : world) : Prop :=
  J (record_of w) /\ Forall (attempt_keeps allowed J) (w_attempts w).

(** ** The discipline of the readiness signal *)

(** Where a run stands, as seen from what it has done so far: still
    resolving, just committed a success record, or signalled. *)
Inductive phase : Type := Resolving | Resolved | Signalled.

(** A terminal success record of the host flow. *)
Definition success (r : UserData.t) : bool :=
  negb (UserData.isLoading r) && UserData.isMiniApp r &&
  match UserData.error r with
  | None => true
  | Some _ => false
  end.

Definition is_host (o : oracle) : bool :=
  match on_isInMiniApp o with
  | Fulfilled true => true
  | _ => false
  end.

(** The readiness signal is accepted only in a host run, right after the
    commit of a success record, and once. *)
Definition monitor (host : bool) (q : phase) (ob : observation)
  : option phase :=
  match q, ob with
  | Signalled, ReadySignal => None
  | Signalled, _ => Some Signalled
  | Resolved, ReadySignal => if host then Some Signalled else None
  | Resolving, ReadySignal => None
  | _, Committed r => Some (if success r then Resolved else Resolving)
  | _, _ => Some Resolving
  end.

Fixpoint monitor_all (host : bool) (q : phase) (obs : list observation)
  : option phase :=
  match obs with
  | [] => Some q
  | ob :: rest =>
      match monitor host q ob with
      | Some q' => monitor_all host q' rest
      | None => None
      end
  end.

Definition advance (host : bool) (q : phase) (ob : option observation)
  : option phase :=
  match ob with
  | Some ob => monitor host q ob
  | None => Some q
  end.

(** What run [i] has done, in order. *)
Definition own_of (i : nat) (t : list (nat * observation)) : list observation :=
  map snd (List.filter (fun x => Nat.eqb (fst x) i) t).

Definition own (i : nat) (w : world) : list observation :=
  own_of i (trace (w_store w)).

(** Every path through [p] is accepted by the monitor from phase [q]. *)
Inductive obeys (o : oracle) : phase -> prog eff unit -> Prop :=
| obeys_Ret q a : obeys o q (Ret a)
| obeys_Throw q e : obeys o q (Throw e)
| obeys_Vis q X (e : eff X) k :
    (forall prev, advance (is_host o) q (seen e prev) <> None) ->
    (forall mounted prev q',
        advance (is_host o) q (seen e prev) = Some q' ->
        obeys o q' (k (result o mounted e))) ->
    obeys o q (Vis e k).

Definition attempt_obeys (t : list (nat * observation)) (i : nat)
    (a : attempt) : Prop :=
  exists q,
    monitor_all (is_host (a_oracle a)) Resolving (own_of i t) = Some q /\
    match a_rest a with
    | Some p => obeys (a_oracle a) q p
    | None => True
    end.

Definition disciplined (w : world) : Prop :=
  (forall j ob, In (j, ob) (trace (w_store w)) -> j < length (w_attempts w)) /\
  (forall i a, w_attempts w !! i = Some a ->
               attempt_obeys (trace (w_store w)) i a).


(** * Further properties of the hooks *)

From Stdlib Require Import Sorted.

(** ** More about the record *)

(** An error message is shown only on a record that has stopped
    loading. *)
Definition errorAfterLoading (r : UserData.t) : Prop :=
  UserData.error r <> None -> UserData.isLoading r = false.

(** A non-empty address is reported as connected; in a miniapp record
    the wallet is reported as connected exactly when the address is
    non-empty. *)
Definition addressCoherent (r : UserData.t) : Prop :=
  (truthy (UserData.address r) = true -> UserData.isWalletConnected r = true) /\
  (UserData.isMiniApp r = true ->
   UserData.isWalletConnected r = truthy (UserData.address r)).

(** The record a run ends on when nothing interrupts it, read off the
    branches of [initializeUser]. *)
Definition resolved (d : deps) (o : oracle) : UserData.t :=
  match on_isInMiniApp o with
  | Rejected _ => failedRecord false "Failed to initialize user data"
  | Fulfilled false => browserRecord d
  | Fulfilled true =>
      match on_context o with
      | Rejected _ => failedRecord true "Farcaster authentication failed"
      | Fulfilled None =>
          failedRecord true "Unable to get user data from Farcaster"
      | Fulfilled (Some farcasterUser) =>
          hostRecord farcasterUser (connectedAddress_of farcasterUser o)
      end
  end.

(** The run reaches line 149. *)
Definition signals (o : oracle) : bool :=
  match on_isInMiniApp o, on_context o with
  | Fulfilled true, Fulfilled (Some _) => true
  | _, _ => false
  end.

Definition is_commit (ob : observation) : bool :=
  match ob with
  | Committed _ => true
  | _ => false
  end.

Definition is_request (ob : observation) : bool :=
  match ob with
  | Requested _ => true
  | _ => false
  end.

(** ** Protocols of a run *)

(** A protocol is a machine that reads what a run does, one observation
    at a time, and may refuse the next one.  It may look at the closure
    and at the environment of the run. *)
Section Protocol.
Variable Q : Type.
Variable delta : deps -> oracle -> Q -> observation -> option Q.

Fixpoint delta_all (d : deps) (o : oracle) (q : Q) (obs : list observation)
  : option Q :=
  match obs with
  | [] => Some q
  | ob :: rest =>
      match delta d o q ob with
      | Some q' => delta_all d o q' rest
      | None => None
      end
  end.

Definition delta_opt (d : deps) (o : oracle) (q : Q) (ob : option observation)
  : option Q :=
  match ob with
  | Some ob => delta d o q ob
  | None => Some q
  end.

(** Every path through [p] is accepted from state [q]. *)
Inductive follows (d : deps) (o : oracle) : Q -> prog eff unit -> Prop :=
| follows_Ret q a : follows d o q (Ret a)
| follows_Throw q e : follows d o q (Throw e)
| follows_Vis q X (e : eff X) k :
    (forall prev, delta_opt d o q (seen e prev) <> None) ->
    (forall mounted prev q',
        delta_opt d o q (seen e prev) = Some q' ->
        follows d o q' (k (result o mounted e))) ->
    follows d o q (Vis e k).

Definition attempt_follows (start : Q) (t : list (nat * observation))
    (i : nat) (a : attempt) : Prop :=
  exists q,
    delta_all (a_deps a) (a_oracle a) start (own_of i t) = Some q /\
    match a_rest a with
    | Some p => follows (a_deps a) (a_oracle a) q p
    | None => True
    end.

Definition protocol_kept (start : Q) (w : world) : Prop :=
  (forall j ob, In (j, ob) (trace (w_store w)) -> j < length (w_attempts w)) /\
  (forall i a, w_attempts w !! i = Some a ->
               attempt_follows start (trace (w_store w)) i a).
End Protocol.

(** *** The order of the calls *)

Definition call_rank {X} (c : call X) : nat :=
  match c with
  | isInMiniApp => 0
  | context => 1
  | quickAuth_fetch => 2
  | res_json => 3
  | eth_requestAccounts => 4
  end.

(** The place of an outside call in the text of [initializeUser]; the
    commits and the console are not ranked. *)
Definition rank (ob : observation) : option nat :=
  match ob with
  | Requested c => Some (call_rank c)
  | Connected => Some 5
  | ReadySignal => Some 6
  | _ => None
  end.

Fixpoint ranks (obs : list observation) : list nat :=
  match obs with
  | [] => []
  | ob :: rest =>
      match rank ob with
      | Some n => n :: ranks rest
      | None => ranks rest
      end
  end.

(** The state is the least rank still allowed. *)
Definition in_order (d : deps) (o : oracle) (next : nat) (ob : observation)
  : option nat :=
  match rank ob with
  | Some n => if (next <=? n)%nat then Some (S n) else None
  | None => Some next
  end.

(** *** The commits of a run *)

Inductive stage : Type := Fresh | Loading | Settled.

Definition loadingRecord (r : UserData.t) : bool :=
  UserData.isLoading r &&
  match UserData.error r with
  | None => true
  | Some _ => false
  end.

(** First the loading record, then the outside calls, then at most one
    record that is not loading, then nothing but the readiness signal. *)
Definition commit_order (d : deps) (o : oracle) (q : stage) (ob : observation)
  : option stage :=
  match ob, q with
  | Committed r, Fresh => if loadingRecord r then Some Loading else None
  | Committed r, Loading =>
      if UserData.isLoading r then None else Some Settled
  | Committed _, Settled => None
  | Requested _, Loading => Some Loading
  | Requested _, _ => None
  | Connected, Loading => Some Loading
  | Connected, _ => None
  | ReadySignal, Settled => Some Settled
  | ReadySignal, _ => None
  | Logged _ _, Fresh => None
  | Logged _ _, _ => Some q
  end.

(** What a run may still do after its terminal record. *)
Definition after_terminal (ob : observation) : bool :=
  match ob with
  | ReadySignal => true
  | Logged _ _ => true
  | _ => false
  end.

(** What a run does between the loading record and the terminal one. *)
Definition while_loading (ob : observation) : bool :=
  match ob with
  | Requested _ => true
  | Connected => true
  | Logged _ _ => true
  | _ => false
  end.

(** *** What each call depends on *)

Definition fetch_ok (o : oracle) : bool :=
  match on_quickAuth_fetch o with
  | Fulfilled true => true
  | _ => false
  end.

Definition has_account (a : jsstring) : bool :=
  match a with
  | Some _ => true
  | None => false
  end.

(** The call is made only on the path that leads to it. *)
Definition permitted (d : deps) (o : oracle) (ob : observation) : bool :=
  match ob with
  | Requested c =>
      match c with
      | isInMiniApp => true
      | context => is_host o
      | quickAuth_fetch => signals o
      | res_json => signals o && fetch_ok o
      | eth_requestAccounts => signals o && has_ethProvider o
      end
  | Connected =>
      signals o && has_account (liveAccount_of o) &&
      hasFarcasterConnector d && negb (isConnected d)
  | ReadySignal => signals o
  | _ => true
  end.

Definition gate (d : deps) (o : oracle) (q : unit) (ob : observation)
  : option unit :=
  if permitted d o ob then Some tt else None.

(** ** Runs that are cleaned up early *)

(** What a run whose flag [isMounted] has been cleared reads from it. *)
Definition unmounted_result {X} (e : eff X) : X -> Prop :=
  match e in eff T return T -> Prop with
  | IsMounted => fun x => x = false
  | _ => fun _ => True
  end.

(** Effects that leave the record alone and reach neither the backend,
    nor the wallet, nor the connector, nor the readiness action. *)
Definition harmless {X} (e : eff X) : Prop :=
  match e with
  | Await c =>
      match c with
      | isInMiniApp => True
      | context => True
      | _ => False
      end
  | SetUserData _ => False
  | Connect => False
  | Ready => False
  | _ => True
  end.

Definition harmless_obs (ob : observation) : bool :=
  match ob with
  | Requested c =>
      match c with
      | isInMiniApp => true
      | context => true
      | _ => false
      end
  | Logged _ _ => true
  | _ => false
  end.

(** Run [i] has been cleaned up and what is left of it is harmless as
    long as it reads its flag as cleared. *)
Definition cancelled_early (i : nat) (w : world) : Prop :=
  exists a,
    w_attempts w !! i = Some a /\
    a_isMounted a = false /\
    match a_rest a with
    | Some p => always (@unmounted_result) (@harmless) p
    | None => True
    end.

Definition is_backend_request (ob : observation) : bool :=
  match ob with
  | Requested c =>
      match c with
      | quickAuth_fetch => true
      | res_json => true
      | _ => false
      end
  | _ => false
  end.

(** All that run [i] has committed is its loading record, and it has
    reached neither the backend, nor the wallet, nor the connector, nor
    the readiness action. *)
Definition answer_dropped (i : nat) (w : world) : Prop :=
  count i is_commit w = 1 /\
  count i is_backend_request w = 0 /\
  wallet_requests i w = 0 /\
  count i is_connect w = 0 /\
  ready_count i w = 0.

(** ** One call of [connectWallet] *)

Module WalletCall.

(** What the environment answers to the call: how the two promises
    settle and whether the host provider exists. *)
Record oracle : Type := {
  on_isInMiniApp : settled bool;
  has_ethProvider : bool;
  on_eth_requestAccounts : settled (option (list string))
}.

Definition answer (o : oracle) {X} (c : FarcasterWallet.call X) : settled X :=
  match c in FarcasterWallet.call T return settled T with
  | FarcasterWallet.isInMiniApp => on_isInMiniApp o
  | FarcasterWallet.eth_requestAccounts => on_eth_requestAccounts o
  end.

(** What the call does outside the hook. *)
Inductive action : Type :=
| AskedHost             (* sdk.isInMiniApp() *)
| AskedWallet           (* eth_requestAccounts *)
| Activated             (* connect({ connector: farcasterConnector }) *)
| Printed (l : level) (msg : string).

(** The two state cells of the hook, and the actions so far. *)
Record state : Type := {
  isConnecting : bool;
  error : jsstring;                     (* [None] is [null] *)
  actions : list action                 (* oldest first *)
}.

Definition asked {X} (c : FarcasterWallet.call X) : action :=
  match c with
  | FarcasterWallet.isInMiniApp => AskedHost
  | FarcasterWallet.eth_requestAccounts => AskedWallet
  end.

Definition result (o : oracle) {X} (e : FarcasterWallet.eff X) : X :=
  match e in FarcasterWallet.eff T return T with
  | FarcasterWallet.Await c => answer o c
  | FarcasterWallet.SetIsConnecting _ => tt
  | FarcasterWallet.SetError _ => tt
  | FarcasterWallet.EthProvider => has_ethProvider o
  | FarcasterWallet.Connect => tt
  | FarcasterWallet.Console _ _ => tt
  end.

Definition perform {X} (e : FarcasterWallet.eff X) (st : state) : state :=
  match e with
  | FarcasterWallet.Await c =>
      {| isConnecting := isConnecting st; error := error st;
         actions := actions st ++ [asked c] |}
  | FarcasterWallet.SetIsConnecting b =>
      {| isConnecting := b; error := error st; actions := actions st |}
  | FarcasterWallet.SetError e' =>
      {| isConnecting := isConnecting st; error := e'; actions := actions st |}
  | FarcasterWallet.EthProvider => st
  | FarcasterWallet.Connect =>
      {| isConnecting := isConnecting st; error := error st;
         actions := actions st ++ [Activated] |}
  | FarcasterWallet.Console l msg =>
      {| isConnecting := isConnecting st; error := error st;
         actions := actions st ++ [Printed l msg] |}
  end.

(** The call from start to end, with nothing else writing the state of
    the hook in between: how the promise it returns settles, and the
    state it leaves. *)
Fixpoint settle {A} (o : oracle) (p : prog FarcasterWallet.eff A) (st : state)
  : settled A * state :=
  match p with
  | Ret a => (Fulfilled a, st)
  | Throw e => (Rejected e, st)
  | Vis e k => settle o (k (result o e)) (perform e st)
  end.

Definition connectWallet (d : FarcasterWallet.deps) (o : oracle) (st : state)
  : settled jsstring * state :=
  settle o (FarcasterWallet.connectWallet d) st.

Definition is_asked_wallet (a : action) : bool :=
  match a with
  | AskedWallet => true
  | _ => false
  end.

Definition is_activated (a : action) : bool :=
  match a with
  | Activated => true
  | _ => false
  end.

(** wagmi holds a connection with an address, so that the call returns
    at once (line 58). *)
Definition alreadyConnected (d : FarcasterWallet.deps) : bool :=
  FarcasterWallet.isConnected d && truthy (FarcasterWallet.address d).

End WalletCall.

(** ** [Navbar] *)

Module Navbar.

(** The first [n] characters of [s], and [s] without them.  The strings
    at hand are ASCII, where a character is one UTF-16 unit. *)
Fixpoint take (n : nat) (s : string) : string :=
  match n, s with
  | S n', String c rest => String c (take n' rest)
  | _, _ => EmptyString
  end.

Fixpoint drop (n : nat) (s : string) : string :=
  match n, s with
  | S n', String _ rest => drop n' rest
  | _, _ => s
  end.

(** [s.slice(0, n)] and [s.slice(-n)] *)
Definition slice_first (n : nat) (s : string) : string := take n s.
Definition slice_last (n : nat) (s : string) : string :=
  drop (String.length s - n) s.

(** [{address.slice(0, 6)}...{address.slice(-4)}] *)
Definition shortAddress (address : string) : string :=
  slice_first 6 address ++ "..." ++ slice_last 4 address.

(** A template literal prints [undefined] as the word. *)
Definition template (s : jsstring) : string :=
  match s with
  | Some v => v
  | None => "undefined"
  end.

(** [a || b] where [b] is a string. *)
Definition js_or_string (a : jsstring) (b : string) : string :=
  match a with
  | Some v => if truthy a then v else b
  | None => b
  end.

(** [displayName || username || `@${username}`] *)
Definition label (r : UserData.t) : string :=
  js_or_string (js_or (UserData.displayName r) (UserData.username r))
               ("@" ++ template (UserData.username r)).

(** The user block of the navbar: nothing without an address, else the
    label and the shortened address. *)
Definition userBlock (r : UserData.t) : option (string * string) :=
  match UserData.address r with
  | Some address =>
      if truthy (Some address) then Some (label r, shortAddress address)
      else None
  | None => None
  end.

End Navbar.

(** ** More scenarios *)

(** wagmi holds no connection when [connectWallet] is called. *)
Definition walletIdle : FarcasterWallet.deps :=
  {| FarcasterWallet.address := None;
     FarcasterWallet.isConnected := false;
     FarcasterWallet.hasFarcasterConnector := true |}.

(** The hook before the call, with a message left by an earlier call. *)
Definition hookAfterFailure : WalletCall.state :=
  {| WalletCall.isConnecting := false;
     WalletCall.error := Some "No accounts returned from wallet";
     WalletCall.actions := [] |}.

Definition walletAnswers (host : settled bool) (provider : bool)
    (wallet : settled (option (list string))) : WalletCall.oracle :=
  {| WalletCall.on_isInMiniApp := host;
     WalletCall.has_ethProvider := provider;
     WalletCall.on_eth_requestAccounts := wallet |}.

(** A host run that goes all the way. *)
Definition full_host_run : list event :=
  [Render disconnected (hostOracle (Some alice) (Fulfilled (Some [account_A])));
   Settle 0; Settle 0; Settle 0; Settle 0].

(** * Proofs *)

Unset Implicit Arguments.

(** ** The semantics *)

Lemma fold_step_app (evs evs' : list event) (w : world) :
  fold_left step (evs ++ evs') w = fold_left step evs' (fold_left step evs w).
Proof. apply fold_left_app. Qed.

Lemma run_snoc (evs : list event) (ev : event) :
  run (evs ++ [ev]) = step (run evs) ev.
Proof. unfold run. rewrite fold_step_app. reflexivity. Qed.

Lemma reachable_fold (evs : list event) :
  forall w, reachable w -> reachable (fold_left step evs w).
Proof.
  induction evs as [|ev evs IH]; intros w Hw; simpl.
  - exact Hw.
  - apply IH. constructor. exact Hw.
Qed.

Lemma reachable_run (evs : list event) : reachable (run evs).
Proof. apply reachable_fold. constructor. Qed.

Lemma reachable_is_run (w : world) :
  reachable w -> exists evs, w = run evs.
Proof.
  induction 1 as [|w ev _ [evs ->]].
  - exists []. reflexivity.
  - exists (evs ++ [ev]). symmetry. apply run_snoc.
Qed.

(** ** Traces *)

Lemma own_of_app i t t' : own_of i (t ++ t') = own_of i t ++ own_of i t'.
Proof. unfold own_of. rewrite List.filter_app, map_app. reflexivity. Qed.

Lemma own_of_tagged_same i obs : own_of i (map (pair i) obs) = obs.
Proof.
  unfold own_of. induction obs as [|ob obs IH]; simpl.
  - reflexivity.
  - rewrite Nat.eqb_refl. simpl. rewrite IH. reflexivity.
Qed.

Lemma own_of_tagged_other i j obs : i <> j -> own_of i (map (pair j) obs) = [].
Proof.
  intros Hne. unfold own_of. induction obs as [|ob obs IH]; simpl.
  - reflexivity.
  - destruct (Nat.eqb_spec j i) as [->|_]; [contradiction | exact IH].
Qed.

Lemma own_of_fresh i t :
  (forall j ob, In (j, ob) t -> j <> i) -> own_of i t = [].
Proof.
  unfold own_of. induction t as [|[j ob] t IH]; intros H; simpl.
  - reflexivity.
  - destruct (Nat.eqb_spec j i) as [->|_].
    + exfalso. apply (H i ob); [left; reflexivity | reflexivity].
    + apply IH. intros j' ob' Hin. apply (H j' ob'). right. exact Hin.
Qed.

Lemma in_tagged (j i : nat) (ob : observation) (obs : list observation) :
  In (j, ob) (map (pair i) obs) -> j = i.
Proof.
  intros H. apply in_map_iff in H. destruct H as (ob' & [= <- _] & _).
  reflexivity.
Qed.

Lemma count_own (i : nat) (what : observation -> bool) (w : world) :
  count i what w = length (List.filter what (own i w)).
Proof.
  unfold count, own, own_of.
  induction (trace (w_store w)) as [|[j ob] t IH]; simpl.
  - reflexivity.
  - unfold by_attempt at 1. simpl.
    destruct (Nat.eqb j i); simpl; [| exact IH].
    destruct (what ob); simpl; rewrite IH; reflexivity.
Qed.

(** What a run appends to the trace carries its own number. *)
Lemma exec_appends o i mounted (p : prog eff unit) :
  forall s, exists obs,
    trace (fst (exec o i mounted p s)) = trace s ++ map (pair i) obs.
Proof.
  induction p as [a | e | X e k IH]; intros s.
  - exists []. simpl. rewrite app_nil_r. reflexivity.
  - exists []. simpl. rewrite app_nil_r. reflexivity.
  - cbn [exec].
    assert (Hp : exists obs1, trace (perform i e s) = trace s ++ map (pair i) obs1).
    { unfold perform; cbn [trace]. destruct (seen e (userData s)) as [ob|].
      - exists [ob]. reflexivity.
      - exists []. reflexivity. }
    destruct Hp as [obs1 Hp].
    destruct (suspends e); cbn [fst].
    + exists obs1. exact Hp.
    + destruct (IH (result o mounted e) (perform i e s)) as [obs2 H2].
      exists (obs1 ++ obs2). rewrite H2, Hp, map_app, app_assoc. reflexivity.
Qed.

Lemma cleanup_length (l : list attempt) : length (cleanup l) = length l.
Proof. unfold cleanup. apply length_alter. Qed.

Lemma cleanup_lookup (l : list attempt) k a' :
  cleanup l !! k = Some a' ->
  exists a, l !! k = Some a /\ a_oracle a' = a_oracle a /\ a_rest a' = a_rest a.
Proof.
  unfold cleanup. rewrite list_lookup_alter.
  destruct (decide (pred (length l) = k)) as [<-|_].
  - intros H. apply fmap_Some in H. destruct H as (a & Hk & ->).
    exists a. repeat split. exact Hk.
  - intros H. exists a'. repeat split. exact H.
Qed.

(** A run that has returned does nothing more, whatever happens next. *)
Lemma step_finished (w : world) (ev : event) (i : nat) :
  finished i w = true ->
  finished i (step w ev) = true /\ own i (step w ev) = own i w.
Proof.
  unfold finished, own. intros Hfin.
  destruct (w_attempts w !! i) as [a|] eqn:Ha; [| discriminate].
  destruct (a_rest a) eqn:Hrest; [discriminate |].
  pose proof (lookup_lt_Some _ _ _ Ha) as Hlt.
  assert (Hclean : exists a', cleanup (w_attempts w) !! i = Some a' /\
                              a_rest a' = None).
  { unfold cleanup. rewrite list_lookup_alter.
    destruct (decide (pred (length (w_attempts w)) = i)) as [Heq|_].
    - rewrite Heq, Ha. exists (unmountAttempt a). split; [reflexivity | exact Hrest].
    - exists a. split; [exact Ha | exact Hrest]. }
  destruct Hclean as (a' & Ha' & Hrest').
  destruct ev as [d o | | j]; unfold step.
  - destruct (exec_appends o (length (cleanup (w_attempts w))) true
                (initializeUser d) (w_store w)) as [obs Htr].
    destruct (exec o _ true (initializeUser d) (w_store w)) as [s rest].
    cbn [fst] in Htr. cbn [w_store w_attempts].
    rewrite (lookup_app_l_Some _ _ _ _ Ha'), Hrest'. split; [reflexivity |].
    rewrite Htr, own_of_app, own_of_tagged_other.
    + apply app_nil_r.
    + rewrite cleanup_length. lia.
  - cbn [w_store w_attempts]. rewrite Ha', Hrest'. auto.
  - destruct (w_attempts w !! j) as [b|] eqn:Hb;
      [| rewrite Ha, Hrest; auto].
    destruct (a_rest b) as [p|] eqn:Hp; [| rewrite Ha, Hrest; auto].
    assert (Hne : j <> i).
    { intros ->. rewrite Ha in Hb. injection Hb as <-. congruence. }
    destruct (exec_appends (a_oracle b) j (a_isMounted b) p (w_store w))
      as [obs Htr].
    destruct (exec (a_oracle b) j (a_isMounted b) p (w_store w)) as [s rest].
    cbn [fst] in Htr. cbn [w_store w_attempts].
    rewrite list_lookup_insert_ne by exact Hne. rewrite Ha, Hrest.
    split; [reflexivity |].
    rewrite Htr, own_of_app, own_of_tagged_other by auto.
    apply app_nil_r.
Qed.

Lemma finished_quiet (later : list event) (i : nat) :
  forall w, finished i w = true ->
  finished i (fold_left step later w) = true /\
  forall what, count i what (fold_left step later w) = count i what w.
Proof.
  induction later as [|ev later IH]; intros w Hfin; simpl.
  - auto.
  - destruct (step_finished w ev i Hfin) as [Hfin' Hown].
    destruct (IH _ Hfin') as [Hfin'' Hcount].
    split; [exact Hfin'' |]. intros what.
    rewrite Hcount, !count_own, Hown. reflexivity.
Qed.

Lemma finished_own (later : list event) (i : nat) :
  forall w, finished i w = true ->
  own i (fold_left step later w) = own i w.
Proof.
  induction later as [|ev later IH]; intros w Hfin; simpl.
  - reflexivity.
  - destruct (step_finished w ev i Hfin) as [Hfin' Hown].
    rewrite (IH _ Hfin'). exact Hown.
Qed.

(** ** Single runs *)

(** C7: in the host, a null user profile ends the run with the
    identity-unavailable record (not loading, error set, no identity, no
    address); the wallet is never asked and readiness is never
    signalled, whatever happens afterwards. *)
Theorem identity_unavailable (d : deps) (o : oracle) :
  on_isInMiniApp o = Fulfilled true ->
  on_context o = Fulfilled None ->
  let w := uninterrupted d o in
  record_of w = failedRecord true "Unable to get user data from Farcaster" /\
  UserData.isLoading (record_of w) = false /\
  UserData.error (record_of w) <> None /\
  identityAbsent (record_of w) /\
  UserData.address (record_of w) = None /\
  finished 0 w = true /\
  forall later,
    wallet_requests 0 (fold_left step later w) = 0 /\
    ready_count 0 (fold_left step later w) = 0.
Proof.
  intros Hm Hc w.
  assert (Hbase : record_of w
                  = failedRecord true "Unable to get user data from Farcaster" /\
                  finished 0 w = true /\
                  wallet_requests 0 w = 0 /\ ready_count 0 w = 0).
  { subst w. destruct o; simpl in Hm, Hc. subst. repeat split; reflexivity. }
  destruct Hbase as (Hr & Hfin & Hreq & Hready).
  rewrite Hr. repeat split; try reflexivity; try exact Hfin.
  - discriminate.
  - destruct (finished_quiet later 0 w Hfin) as [_ Hcount].
    unfold wallet_requests. rewrite Hcount. exact Hreq.
  - destruct (finished_quiet later 0 w Hfin) as [_ Hcount].
    unfold ready_count. rewrite Hcount. exact Hready.
Qed.

(** A host run with a user profile that nothing interrupts: the record
    it ends on, and what it did on the way. *)
Lemma host_run (d : deps) (o : oracle) (u : FarcasterUser.t) :
  on_isInMiniApp o = Fulfilled true ->
  on_context o = Fulfilled (Some u) ->
  let w := uninterrupted d o in
  record_of w = hostRecord u (connectedAddress_of u o) /\
  finished 0 w = true /\
  ready_count 0 w = 1 /\
  wallet_requests 0 w = (if has_ethProvider o then 1 else 0) /\
  count 0 is_connect w =
    match liveAccount_of o with
    | Some _ => if hasFarcasterConnector d && negb (isConnected d) then 1 else 0
    | None => 0
    end.
Proof.
  destruct o as [mini ctx fetch json provider wallet]; simpl.
  intros -> ->.
  destruct d as [wa [|] [|]];
    destruct fetch as [[|]|?]; destruct json as [[|?]|?];
    destruct provider; destruct wallet as [[[|? ?]|]|?];
    repeat split; reflexivity.
Qed.

Lemma host_run_ready_once (d : deps) (o : oracle) (u : FarcasterUser.t) :
  on_isInMiniApp o = Fulfilled true ->
  on_context o = Fulfilled (Some u) ->
  forall later, ready_count 0 (fold_left step later (uninterrupted d o)) = 1.
Proof.
  intros Hm Hc later.
  destruct (host_run d o u Hm Hc) as (_ & Hfin & Hready & _).
  destruct (finished_quiet later 0 _ Hfin) as [_ Hcount].
  unfold ready_count. rewrite Hcount. exact Hready.
Qed.

Lemma liveAccount_none (o : oracle) :
  noLiveAccount o -> liveAccount_of o = None.
Proof.
  unfold liveAccount_of.
  intros [Hp | [[e Hw] | [Hw | Hw]]].
  - rewrite Hp. reflexivity.
  - rewrite Hw. destruct (has_ethProvider o); reflexivity.
  - rewrite Hw. destruct (has_ethProvider o); reflexivity.
  - rewrite Hw. destruct (has_ethProvider o); reflexivity.
Qed.

Lemma connectedAddress_live (u : FarcasterUser.t) (o : oracle)
    (account0 : string) (others : list string) :
  has_ethProvider o = true ->
  on_eth_requestAccounts o = Fulfilled (Some (account0 :: others)) ->
  connectedAddress_of u o = Some account0.
Proof.
  intros Hp Hw. unfold connectedAddress_of, liveAccount_of.
  rewrite Hp, Hw. reflexivity.
Qed.

Lemma connectedAddress_hint (u : FarcasterUser.t) (o : oracle) :
  noLiveAccount o -> connectedAddress_of u o = hint_of u o.
Proof.
  intros Hno. unfold connectedAddress_of.
  rewrite (liveAccount_none o Hno). reflexivity.
Qed.

(** C3, as the code has it: the first account the provider hands back
    is stored as it is, character for character; no case is changed. *)
Theorem address_stored_verbatim (d : deps) (o : oracle)
    (u : FarcasterUser.t) (account0 : string) (others : list string) :
  on_isInMiniApp o = Fulfilled true ->
  on_context o = Fulfilled (Some u) ->
  has_ethProvider o = true ->
  on_eth_requestAccounts o = Fulfilled (Some (account0 :: others)) ->
  let w := uninterrupted d o in
  UserData.address (record_of w) = Some account0 /\
  UserData.isWalletConnected (record_of w) = truthy (Some account0) /\
  UserData.isLoading (record_of w) = false /\
  UserData.error (record_of w) = None /\
  forall later, ready_count 0 (fold_left step later w) = 1.
Proof.
  intros Hm Hc Hp Hw w.
  destruct (host_run d o u Hm Hc) as (Hr & _).
  fold w in Hr. rewrite Hr.
  rewrite (connectedAddress_live u o account0 others Hp Hw).
  repeat split. apply (host_run_ready_once d o u Hm Hc).
Qed.

(** C4, as the code has it: when the host check is rejected the run ends
    on the initialisation-failed record (standalone, not loading, wallet
    reported as not connected whatever wagmi says, error set).  All the
    run ever does is commit the loading record, ask the host check, log
    the fault and commit that record: no further request is made, the
    wallet is never asked and readiness is never signalled. *)
Theorem detector_fault_is_terminal (d : deps) (o : oracle) (e : exn) :
  on_isInMiniApp o = Rejected e ->
  let w := uninterrupted d o in
  record_of w = failedRecord false "Failed to initialize user data" /\
  UserData.address (record_of w) = None /\
  UserData.isWalletConnected (record_of w) = false /\
  UserData.error (record_of w) = Some "Failed to initialize user data" /\
  finished 0 w = true /\
  forall later,
    own 0 (fold_left step later w)
    = [Committed (startLoading initialUserData);
       Requested isInMiniApp;
       Logged ErrorLevel "Error initializing user:";
       Committed (failedRecord false "Failed to initialize user data")] /\
    count 0 is_request (fold_left step later w) = 1 /\
    wallet_requests 0 (fold_left step later w) = 0 /\
    ready_count 0 (fold_left step later w) = 0.
Proof.
  intros Hm w.
  assert (Hbase : record_of w
                  = failedRecord false "Failed to initialize user data" /\
                  finished 0 w = true /\
                  own 0 w
                  = [Committed (startLoading initialUserData);
                     Requested isInMiniApp;
                     Logged ErrorLevel "Error initializing user:";
                     Committed
                       (failedRecord false "Failed to initialize user data")]).
  { subst w. destruct o; simpl in Hm. subst. repeat split; reflexivity. }
  destruct Hbase as (Hr & Hfin & Hown).
  rewrite Hr.
  split; [reflexivity | split; [reflexivity | split; [reflexivity |]]].
  split; [reflexivity | split; [exact Hfin |]].
  intros later.
  pose proof (finished_own later 0 w Hfin) as Hlater. rewrite Hown in Hlater.
  split; [exact Hlater |].
  unfold wallet_requests, ready_count. rewrite !count_own, Hlater.
  repeat split; reflexivity.
Qed.


(** C10: in the host, a non-empty primary address from the host profile,
    or else from the backend profile (the fetch of /api/me resolved with
    ok and its body is an object carrying one), becomes the address of
    the final record, and the record reports the wallet as connected,
    although the wallet request was rejected, yielded no account, or
    could not be made: no connection is ever established, the connector
    is never activated. *)
Theorem hint_alone_connects (d : deps) (o : oracle) (u : FarcasterUser.t)
    (hint : string) :
  on_isInMiniApp o = Fulfilled true ->
  on_context o = Fulfilled (Some u) ->
  hint <> EmptyString ->
  FarcasterUser.primaryAddress u = Some hint \/
  (truthy (FarcasterUser.primaryAddress u) = false /\
   exists body,
     on_quickAuth_fetch o = Fulfilled true /\
     on_res_json o = Fulfilled (Obj body) /\
     api_primaryAddress body = Some hint) ->
  noLiveAccount o ->
  let w := uninterrupted d o in
  UserData.address (record_of w) = Some hint /\
  UserData.isWalletConnected (record_of w) = true /\
  UserData.isLoading (record_of w) = false /\
  UserData.error (record_of w) = None /\
  count 0 is_connect w = 0 /\
  forall later, ready_count 0 (fold_left step later w) = 1.
Proof.
  intros Hm Hc Hne Hhint Hno w.
  assert (Ht : truthy (Some hint) = true).
  { destruct hint; [contradiction | reflexivity]. }
  assert (Hh : hint_of u o = Some hint).
  { unfold hint_of, js_or.
    destruct Hhint as [Hp | (Hp & body & Hf & Hj & Hb)].
    - rewrite Hp, Ht. reflexivity.
    - rewrite Hp. unfold apiUserData_of. rewrite Hf, Hj. exact Hb. }
  destruct (host_run d o u Hm Hc) as (Hr & _ & _ & _ & Hconnect).
  fold w in Hr, Hconnect. rewrite Hr.
  rewrite (connectedAddress_hint u o Hno), Hh.
  rewrite (liveAccount_none o Hno) in Hconnect.
  split; [reflexivity | split; [exact Ht | split; [reflexivity |]]].
  split; [reflexivity | split; [exact Hconnect |]].
  apply (host_run_ready_once d o u Hm Hc).
Qed.


(** ** Invariants of the record *)

Section Invariant.
Variable allowed : forall X, eff X -> X -> Prop.
Variable J : UserData.t -> Prop.
Variable event_ok : event -> Prop.

Hypothesis initial_ok : J initialUserData.
Hypothesis render_ok : forall d o,
  event_ok (Render d o) ->
  answers_within allowed o /\
  always allowed (@commits_keep J) (initializeUser d).

Lemma perform_keeps i X (e : eff X) (s : store) :
  commits_keep J e -> J (userData s) -> J (userData (perform i e s)).
Proof. destruct e; simpl; auto. Qed.

Lemma exec_keeps o i mounted (p : prog eff unit) :
  answers_within allowed o ->
  always allowed (@commits_keep J) p ->
  forall s, J (userData s) ->
  J (userData (fst (exec o i mounted p s))) /\
  match snd (exec o i mounted p s) with
  | Some q => always allowed (@commits_keep J) q
  | None => True
  end.
Proof.
  intros Hans Hp. induction Hp as [a | e | X e k Hgood Hk IH]; intros s Hs.
  - simpl. auto.
  - simpl. auto.
  - pose proof (Hans mounted X e) as Hx.
    pose proof (perform_keeps i X e s Hgood Hs) as Hs'.
    cbn [exec]. destruct (suspends e); cbn [fst snd].
    + split; [exact Hs' | apply Hk; exact Hx].
    + apply IH; assumption.
Qed.

Lemma unmountAttempt_keeps a :
  attempt_keeps allowed J a -> attempt_keeps allowed J (unmountAttempt a).
Proof. intros H. exact H. Qed.

Lemma cleanup_keeps l :
  Forall (attempt_keeps allowed J) l ->
  Forall (attempt_keeps allowed J) (cleanup l).
Proof.
  intros H. unfold cleanup. apply Forall_alter; [exact H |].
  intros a _. apply unmountAttempt_keeps.
Qed.

Lemma step_keeps w ev :
  event_ok ev -> world_keeps allowed J w -> world_keeps allowed J (step w ev).
Proof.
  intros Hev [Hrec Hall]. destruct ev as [d o | | i]; unfold step.
  - destruct (render_ok d o Hev) as [Hans Hprog].
    pose proof (exec_keeps o (length (cleanup (w_attempts w))) true
                  (initializeUser d) Hans Hprog (w_store w) Hrec)
      as [Hs Hrest].
    destruct (exec o _ true (initializeUser d) (w_store w)) as [s rest].
    split; [exact Hs |]. cbn [w_attempts].
    apply Forall_app. split; [apply cleanup_keeps; exact Hall |].
    constructor; [| constructor]. split; assumption.
  - split; [exact Hrec | apply cleanup_keeps; exact Hall].
  - destruct (w_attempts w !! i) as [a|] eqn:Ha; [| split; assumption].
    destruct (a_rest a) as [p|] eqn:Hp; [| split; assumption].
    destruct (Forall_lookup_1 _ _ _ _ Hall Ha) as [Hans Hprog].
    rewrite Hp in Hprog.
    pose proof (exec_keeps (a_oracle a) i (a_isMounted a) p
                  Hans Hprog (w_store w) Hrec) as [Hs Hrest].
    destruct (exec (a_oracle a) i (a_isMounted a) p (w_store w)) as [s rest].
    split; [exact Hs |]. cbn [w_attempts].
    apply Forall_insert; [exact Hall |]. split; assumption.
Qed.

Lemma run_keeps evs :
  Forall event_ok evs -> world_keeps allowed J (run evs).
Proof.
  unfold run. intros Hevs.
  assert (H0 : world_keeps allowed J init) by (split; [exact initial_ok | constructor]).
  revert H0. generalize init.
  induction Hevs as [|ev evs Hev _ IH]; intros w Hw; simpl.
  - exact Hw.
  - apply IH. apply step_keeps; assumption.
Qed.
End Invariant.

(** Walking every path of a program: at each effect the obligation on
    the effect is left to [tac], and the walk goes on under every
    answer. *)
Ltac split_scrutinee :=
  first
    [ match goal with
      | |- context [match ?x with _ => _ end] => is_var x; destruct x
      end
    | match goal with
      | |- context [if ?c then _ else _] => destruct c
      end ].

Ltac walk tac :=
  cbn;
  lazymatch goal with
  | |- always _ _ (Ret _) => apply always_Ret
  | |- always _ _ (Throw _) => apply always_Throw
  | |- always _ _ (Vis _ _) =>
      apply always_Vis; [ cbn; tac | intros ? ?; walk tac ]
  | |- always _ _ _ => split_scrutinee; walk tac
  end.

Ltac open_initializeUser :=
  unfold initializeUser, fetchApiUserData, autoConnect, await, setUserData,
    console, trigger.

Lemma answers_any (o : oracle) : answers_within (@any_result) o.
Proof. intros mounted X e. exact I. Qed.

Lemma initializeUser_standaloneAnonymous (d : deps) :
  always (@any_result) (@commits_keep standaloneAnonymous) (initializeUser d).
Proof.
  open_initializeUser.
  walk ltac:(try exact I;
             intros r Hr; unfold standaloneAnonymous, identityAbsent in *;
             cbn in *; intros; try discriminate; auto).
Qed.

(** C9: whatever happens to the component (renders, unmounts, promises
    settling in any order), a record that says "not in the miniapp"
    carries no fid, username, display name, avatar or location. *)
Theorem standalone_has_no_identity (evs : list event) :
  UserData.isMiniApp (record_of (run evs)) = false ->
  UserData.fid (record_of (run evs)) = None /\
  UserData.username (record_of (run evs)) = None /\
  UserData.displayName (record_of (run evs)) = None /\
  UserData.pfpUrl (record_of (run evs)) = None /\
  UserData.location (record_of (run evs)) = None.
Proof.
  assert (H : world_keeps (@any_result) standaloneAnonymous (run evs)).
  { apply run_keeps with (event_ok := fun _ => True).
    - intros _. repeat split.
    - intros d o _. split.
      + apply answers_any.
      + apply initializeUser_standaloneAnonymous.
    - apply Forall_forall. intros ev _. exact I. }
  destruct H as [H _]. exact H.
Qed.

(** ** Well-formed addresses *)

Lemma wellFormed_truthy (s : string) :
  wellFormedAddress s = true -> truthy (Some s) = true.
Proof. destruct s; [discriminate | reflexivity]. Qed.

Lemma hasAddress_truthy (a : jsstring) : hasAddress a -> truthy a = true.
Proof. destruct a as [s|]; [apply wellFormed_truthy | intros []]. Qed.

Lemma addressOrAbsent_truthy (a : jsstring) :
  addressOrAbsent a -> truthy a = true -> hasAddress a.
Proof. destruct a as [s|]; simpl; [auto | discriminate]. Qed.

Lemma js_or_addressOrAbsent (a b : jsstring) :
  addressOrAbsent a -> addressOrAbsent b -> addressOrAbsent (js_or a b).
Proof. unfold js_or. destruct (truthy a); auto. Qed.

Lemma api_primary_addressOrAbsent (body : nullable ApiUser) :
  wf_answer res_json (Fulfilled body) -> addressOrAbsent (api_primary body).
Proof. destruct body; simpl; auto. Qed.

Lemma first_account_addressOrAbsent (account0 : string) (others : list string) :
  wf_answer eth_requestAccounts (Fulfilled (Some (account0 :: others))) ->
  addressOrAbsent (Some account0).
Proof. simpl. intros H. inversion H. assumption. Qed.

Lemma browserRecord_connectedHasAddress (d : deps) :
  wf_deps d -> connectedHasAddress (browserRecord d).
Proof.
  intros [_ Hd] Hc. simpl in Hc. specialize (Hd Hc).
  unfold browserRecord; simpl.
  rewrite Hc, (hasAddress_truthy _ Hd). exact Hd.
Qed.

Lemma hostRecord_connectedHasAddress (u : FarcasterUser.t) (a : jsstring) :
  addressOrAbsent a -> connectedHasAddress (hostRecord u a).
Proof. intros Ha Hc. simpl in *. apply addressOrAbsent_truthy; assumption. Qed.

Lemma failedRecord_connectedHasAddress (miniApp : bool) (msg : string) :
  connectedHasAddress (failedRecord miniApp msg).
Proof. intros Hc. discriminate. Qed.

Lemma startLoading_connectedHasAddress (r : UserData.t) :
  connectedHasAddress r -> connectedHasAddress (startLoading r).
Proof. intros Hr Hc. apply Hr. exact Hc. Qed.

Lemma answers_wf (o : oracle) : wf_oracle o -> answers_within (@wf_result) o.
Proof.
  intros Ho mounted X e. destruct e; simpl; try exact I. apply Ho.
Qed.

Create HintDb commits.

#[local] Hint Resolve browserRecord_connectedHasAddress
  hostRecord_connectedHasAddress failedRecord_connectedHasAddress
  startLoading_connectedHasAddress js_or_addressOrAbsent
  api_primary_addressOrAbsent first_account_addressOrAbsent : commits.

Lemma initializeUser_connectedHasAddress (d : deps) :
  wf_deps d ->
  always (@wf_result) (@commits_keep connectedHasAddress) (initializeUser d).
Proof.
  intros Hd. open_initializeUser.
  walk ltac:(try exact I; intros r Hr; eauto with commits).
Qed.

(** C6, as the code has it: the hook checks no address.  When every
    source hands over well-formed addresses only (host profile, backend
    profile, provider accounts, and wagmi whenever it reports a
    connection), every record that reports a connected wallet carries an
    address of the form 0x plus 40 hexadecimal characters. *)
Theorem connected_record_has_address (evs : list event) :
  Forall wf_event evs ->
  UserData.isWalletConnected (record_of (run evs)) = true ->
  exists s,
    UserData.address (record_of (run evs)) = Some s /\
    wellFormedAddress s = true.
Proof.
  intros Hevs Hc.
  assert (H : world_keeps (@wf_result) connectedHasAddress (run evs)).
  { apply run_keeps with (event_ok := wf_event).
    - intros H. discriminate.
    - intros d o [Hd Ho]. split.
      + apply answers_wf. exact Ho.
      + apply initializeUser_connectedHasAddress. exact Hd.
    - exact Hevs. }
  destruct H as [H _]. specialize (H Hc).
  destruct (UserData.address (record_of (run evs))) as [s|]; [| destruct H].
  exists s. split; [reflexivity | exact H].
Qed.

(** ** The readiness signal *)

Lemma monitor_all_app host q obs obs' :
  monitor_all host q (obs ++ obs')
  = match monitor_all host q obs with
    | Some q' => monitor_all host q' obs'
    | None => None
    end.
Proof.
  revert q. induction obs as [|ob obs IH]; intros q; simpl.
  - reflexivity.
  - destruct (monitor host q ob); [apply IH | reflexivity].
Qed.

Lemma exec_obeys o i mounted q (p : prog eff unit) :
  obeys o q p ->
  forall s, exists obs q',
    trace (fst (exec o i mounted p s)) = trace s ++ map (pair i) obs /\
    monitor_all (is_host o) q obs = Some q' /\
    match snd (exec o i mounted p s) with
    | Some p' => obeys o q' p'
    | None => True
    end.
Proof.
  induction 1 as [q a | q e | q X e k Hsome Hk IH]; intros s.
  - exists [], q. simpl. rewrite app_nil_r. auto.
  - exists [], q. simpl. rewrite app_nil_r. auto.
  - cbn [exec].
    destruct (advance (is_host o) q (seen e (userData s))) as [q1|] eqn:Hq1;
      [| exfalso; exact (Hsome _ Hq1)].
    assert (Hp : exists obs1,
               trace (perform i e s) = trace s ++ map (pair i) obs1 /\
               monitor_all (is_host o) q obs1 = Some q1).
    { unfold perform; cbn [trace]. destruct (seen e (userData s)) as [ob|].
      - exists [ob]. split; [reflexivity |]. simpl in *. rewrite Hq1. reflexivity.
      - exists []. split; [reflexivity |]. simpl in *. exact Hq1. }
    destruct Hp as (obs1 & Hp & Hm1).
    destruct (suspends e); cbn [fst snd].
    + exists obs1, q1. split; [exact Hp | split; [exact Hm1 |]].
      apply (Hk mounted _ _ Hq1).
    + destruct (IH mounted _ _ Hq1 (perform i e s)) as (obs2 & q2 & H2 & Hm2 & Hrest).
      exists (obs1 ++ obs2), q2. split; [| split].
      * rewrite H2, Hp, map_app, app_assoc. reflexivity.
      * rewrite monitor_all_app, Hm1. exact Hm2.
      * exact Hrest.
Qed.

Ltac walk_obeys :=
  cbn;
  lazymatch goal with
  | |- obeys _ _ (Ret _) => apply obeys_Ret
  | |- obeys _ _ (Throw _) => apply obeys_Throw
  | |- obeys _ _ (Vis _ _) =>
      apply obeys_Vis;
      [ intros ?; cbn; discriminate
      | intros ? ? ? Hadv; cbn in Hadv; injection Hadv as <-; walk_obeys ]
  | |- obeys _ _ _ => split_scrutinee; walk_obeys
  end.

Lemma initializeUser_obeys (d : deps) (o : oracle) :
  obeys o Resolving (initializeUser d).
Proof.
  destruct o as [mini ctx fetch json provider wallet].
  open_initializeUser.
  walk_obeys.
Qed.

Lemma attempt_obeys_ext t t' i (a a' : attempt) :
  own_of i t' = own_of i t ->
  a_oracle a' = a_oracle a ->
  a_rest a' = a_rest a ->
  attempt_obeys t i a -> attempt_obeys t' i a'.
Proof.
  intros Ht Ho Hr (q & Hq & Hp). exists q.
  rewrite Ht, Ho, Hr. auto.
Qed.

Lemma disciplined_init : disciplined init.
Proof.
  split.
  - intros j ob [].
  - intros i a H. discriminate.
Qed.

Lemma step_disciplined (w : world) (ev : event) :
  disciplined w -> disciplined (step w ev).
Proof.
  intros [Htags Hall]. destruct ev as [d o | | i]; unfold step.
  - (* a new run starts *)
    pose proof (cleanup_length (w_attempts w)) as Hlen.
    destruct (exec_obeys o (length (cleanup (w_attempts w))) true Resolving
                (initializeUser d) (initializeUser_obeys d o) (w_store w))
      as (obs & q' & Htr & Hm & Hrest).
    destruct (exec o _ true (initializeUser d) (w_store w)) as [s rest].
    cbn [fst snd] in Htr, Hrest. split; cbn [w_store w_attempts].
    + intros j ob Hin. rewrite length_app, Hlen. simpl.
      rewrite Htr in Hin. apply in_app_or in Hin. destruct Hin as [Hin | Hin].
      * apply Htags in Hin. lia.
      * apply in_tagged in Hin. lia.
    + intros k a Hk. apply lookup_app_Some in Hk.
      destruct Hk as [Hk | [Hge Hk]].
      * pose proof (lookup_lt_Some _ _ _ Hk) as Hlt.
        destruct (cleanup_lookup _ _ _ Hk) as (a0 & Hk0 & Ho & Hr).
        apply (attempt_obeys_ext (trace (w_store w)) _ k a0 a); auto.
        rewrite Htr, own_of_app, own_of_tagged_other by lia.
        apply app_nil_r.
      * destruct (k - length (cleanup (w_attempts w))) as [|n] eqn:Hd;
          [| discriminate].
        injection Hk as <-.
        assert (k = length (cleanup (w_attempts w))) as -> by lia.
        exists q'. cbn [a_oracle a_rest]. split; [| exact Hrest].
        rewrite Htr, own_of_app, own_of_tagged_same.
        rewrite own_of_fresh; [exact Hm |].
        intros j ob Hin. apply Htags in Hin. lia.
  - (* the component is unmounted *)
    split; cbn [w_store w_attempts].
    + intros j ob Hin. rewrite cleanup_length. apply (Htags j ob). exact Hin.
    + intros k a Hk.
      destruct (cleanup_lookup _ _ _ Hk) as (a0 & Hk0 & Ho & Hr).
      apply (attempt_obeys_ext (trace (w_store w)) _ k a0 a); auto.
  - (* run i is resumed *)
    destruct (w_attempts w !! i) as [a|] eqn:Ha; [| split; assumption].
    destruct (a_rest a) as [p|] eqn:Hp; [| split; assumption].
    destruct (Hall i a Ha) as (q & Hq & Hobeys). rewrite Hp in Hobeys.
    destruct (exec_obeys (a_oracle a) i (a_isMounted a) q p Hobeys (w_store w))
      as (obs & q' & Htr & Hm & Hrest).
    destruct (exec (a_oracle a) i (a_isMounted a) p (w_store w)) as [s rest].
    cbn [fst snd] in Htr, Hrest.
    pose proof (lookup_lt_Some _ _ _ Ha) as Hlt.
    split; cbn [w_store w_attempts].
    + intros j ob Hin. rewrite length_insert.
      rewrite Htr in Hin. apply in_app_or in Hin. destruct Hin as [Hin | Hin].
      * apply Htags in Hin. exact Hin.
      * apply in_tagged in Hin. lia.
    + intros k b Hk. destruct (decide (i = k)) as [<- | Hne].
      * rewrite list_lookup_insert_eq in Hk by exact Hlt.
        injection Hk as <-. exists q'. cbn [a_oracle a_rest].
        split; [| exact Hrest].
        rewrite Htr, own_of_app, own_of_tagged_same, monitor_all_app, Hq.
        exact Hm.
      * rewrite list_lookup_insert_ne in Hk by exact Hne.
        apply (attempt_obeys_ext (trace (w_store w)) _ k b b); auto.
        rewrite Htr, own_of_app, own_of_tagged_other by auto.
        apply app_nil_r.
Qed.

Lemma run_disciplined (evs : list event) : disciplined (run evs).
Proof.
  unfold run. generalize disciplined_init. generalize init.
  induction evs as [|ev evs IH]; intros w Hw; simpl.
  - exact Hw.
  - apply IH. apply step_disciplined. exact Hw.
Qed.

Lemma monitor_ready_bound host obs :
  forall q q', monitor_all host q obs = Some q' ->
  length (List.filter is_ready obs)
  <= match q with Signalled => 0 | _ => 1 end.
Proof.
  induction obs as [|ob obs IH]; intros q q' H; simpl in *.
  - destruct q; lia.
  - destruct (monitor host q ob) as [q1|] eqn:Hq1; [| discriminate].
    specialize (IH q1 q' H).
    destruct ob; simpl;
      try (destruct q; simpl in Hq1; injection Hq1 as <-;
           repeat match goal with
                  | H : context [if ?c then _ else _] |- _ => destruct c
                  end; lia).
    destruct q; simpl in Hq1; try discriminate.
    destruct host; [| discriminate]. injection Hq1 as <-. lia.
Qed.

Lemma monitor_ready_standalone obs :
  forall q q', monitor_all false q obs = Some q' ->
  length (List.filter is_ready obs) = 0.
Proof.
  induction obs as [|ob obs IH]; intros q q' H; simpl in *.
  - reflexivity.
  - destruct (monitor false q ob) as [q1|] eqn:Hq1; [| discriminate].
    destruct ob; simpl; try exact (IH q1 q' H).
    destruct q; discriminate.
Qed.

Lemma monitor_resolved_last host pre :
  monitor_all host Resolving pre = Some Resolved ->
  exists pre' r, pre = pre' ++ [Committed r] /\ success r = true.
Proof.
  induction pre as [|ob0 pre _] using rev_ind; [discriminate |].
  rewrite monitor_all_app.
  destruct (monitor_all host Resolving pre) as [q|]; [| discriminate].
  simpl. destruct (monitor host q ob0) as [q1|] eqn:Hq1; [| discriminate].
  intros [= ->]. destruct ob0.
  - destruct q; discriminate.
  - exists pre, r. split; [reflexivity |].
    destruct q; simpl in Hq1; [| | discriminate];
      destruct (success r); [reflexivity | discriminate
                            | reflexivity | discriminate].
  - destruct q; discriminate.
  - destruct q; simpl in Hq1; try discriminate.
    destruct host; discriminate.
  - destruct q; discriminate.
Qed.

Lemma monitor_ready_after_commit host pre post q' :
  monitor_all host Resolving (pre ++ ReadySignal :: post) = Some q' ->
  exists pre' r, pre = pre' ++ [Committed r] /\ success r = true.
Proof.
  rewrite monitor_all_app.
  destruct (monitor_all host Resolving pre) as [q|] eqn:Hq; [| discriminate].
  simpl. intros H. apply (monitor_resolved_last host).
  destruct q; simpl in H; try discriminate. exact Hq.
Qed.

Lemma own_unstarted (evs : list event) (i : nat) :
  w_attempts (run evs) !! i = None -> own i (run evs) = [].
Proof.
  intros Hi. apply own_of_fresh. intros j ob Hin.
  destruct (run_disciplined evs) as [Htags _].
  apply Htags in Hin. apply lookup_ge_None in Hi. lia.
Qed.

(** What the code keeps of the readiness contract, whatever the
    interleaving: a run signals at most once; a run outside the host
    never signals; and a signal comes right after the run has committed
    a success record (host, not loading, no error). *)
Theorem ready_signal_discipline (evs : list event) (i : nat) :
  ready_count i (run evs) <= 1 /\
  (forall a, w_attempts (run evs) !! i = Some a ->
             on_isInMiniApp (a_oracle a) <> Fulfilled true ->
             ready_count i (run evs) = 0) /\
  (forall pre post, own i (run evs) = pre ++ ReadySignal :: post ->
     exists pre' r, pre = pre' ++ [Committed r] /\ success r = true).
Proof.
  unfold ready_count. rewrite count_own.
  destruct (w_attempts (run evs) !! i) as [a|] eqn:Ha.
  - destruct (run_disciplined evs) as [_ Hall].
    destruct (Hall i a Ha) as (q & Hq & _). fold (own i (run evs)) in Hq.
    split; [| split].
    + apply (monitor_ready_bound _ _ _ _ Hq).
    + intros a' [= <-] Hhost.
      assert (Hf : is_host (a_oracle a) = false).
      { unfold is_host. destruct (on_isInMiniApp (a_oracle a)) as [[|]|];
          [contradiction | reflexivity | reflexivity]. }
      rewrite Hf in Hq. apply (monitor_ready_standalone _ _ _ Hq).
    + intros pre post Hown. rewrite Hown in Hq.
      apply (monitor_ready_after_commit _ _ _ _ Hq).
  - rewrite (own_unstarted evs i Ha). split; [simpl; lia | split].
    + intros a' H. discriminate.
    + intros pre post H. destruct pre; discriminate.
Qed.

(** ** Cancelled runs *)

(** C1: a run that was cleaned up while its wallet request was pending
    (the component was unmounted, or a dependency changed and a new run
    started) still calls [sdk.actions.ready()] when the request
    settles. *)
Theorem superseded_run_signals_ready :
  (live 0 (run unmounted_prefix) = false /\
   ready_count 0 (run unmounted_prefix) = 0 /\
   ready_count 0 (run unmounted_settles) = 1) /\
  (live 0 (run second_run_done) = false /\
   ready_count 0 (run second_run_done) = 0 /\
   ready_count 0 (run stale_settles) = 1).
Proof. repeat split; reflexivity. Qed.

(** C2: the second run has completed and committed its record; when the
    wallet request of the first, cleaned-up run settles, the record is
    replaced by the one of the first run. *)
Theorem stale_result_overwrites_record :
  live 0 (run second_run_done) = false /\
  live 1 (run second_run_done) = true /\
  finished 1 (run second_run_done) = true /\
  record_of (run second_run_done) = hostRecord alice (Some account_B) /\
  record_of (run stale_settles) = hostRecord alice (Some account_A).
Proof. repeat split; reflexivity. Qed.

(** ** Where the code departs from the specification *)

Lemma scenario_A_not_lowercased :
  UserData.address (record_of scenario_A) = Some account_A /\
  UserData.address (record_of scenario_A) <> Some (toLowerCase account_A) /\
  ~ rendersLowercase (record_of scenario_A).
Proof.
  split; [reflexivity | split].
  - vm_compute. discriminate.
  - vm_compute. discriminate.
Qed.

Lemma detector_fault_ignores_wallet :
  ~ degradesToStandalone connected_B
      (record_of (uninterrupted connected_B faultyDetector)).
Proof. intros (H & _). vm_compute in H. discriminate. Qed.


Lemma short_account_reported_connected :
  ~ connectedHasAddress (record_of scenario_short_account).
Proof.
  intros H. specialize (H eq_refl). vm_compute in H. discriminate.
Qed.


(** ** The theorems at concrete inputs *)

Lemma identity_unavailable_witness :
  let o := hostOracle None (Fulfilled (Some [account_A])) in
  on_isInMiniApp o = Fulfilled true /\
  on_context o = Fulfilled None /\
  record_of (uninterrupted disconnected o)
  = failedRecord true "Unable to get user data from Farcaster" /\
  ready_count 0 (fold_left step [Unmount] (uninterrupted disconnected o)) = 0.
Proof.
  split; [reflexivity | split; [reflexivity |]].
  pose proof (identity_unavailable disconnected
                (hostOracle None (Fulfilled (Some [account_A])))
                eq_refl eq_refl) as H.
  cbv zeta in H. destruct H as (Hr & _ & _ & _ & _ & _ & Hlater).
  split; [exact Hr | apply (Hlater [Unmount])].
Defined.

Lemma address_stored_verbatim_witness :
  UserData.address (record_of scenario_A) = Some account_A /\
  ready_count 0 (fold_left step [] scenario_A) = 1.
Proof.
  pose proof (address_stored_verbatim disconnected
                (hostOracle (Some alice) (Fulfilled (Some [account_A])))
                alice account_A []
                eq_refl eq_refl eq_refl eq_refl) as H.
  cbv zeta in H. destruct H as (Ha & _ & _ & _ & Hready).
  split; [exact Ha | apply (Hready [])].
Defined.

Lemma detector_fault_is_terminal_witness :
  on_isInMiniApp faultyDetector = Rejected (ErrorObject "host check failed") /\
  record_of (uninterrupted connected_B faultyDetector)
  = failedRecord false "Failed to initialize user data" /\
  count 0 is_request
    (fold_left step [Settle 0; Unmount]
       (uninterrupted connected_B faultyDetector)) = 1.
Proof.
  split; [reflexivity |].
  pose proof (detector_fault_is_terminal connected_B faultyDetector
                (ErrorObject "host check failed") eq_refl) as H.
  cbv zeta in H. destruct H as (Hr & _ & _ & _ & _ & Hlater).
  split; [exact Hr | apply (Hlater [Settle 0; Unmount])].
Defined.


Lemma hint_alone_connects_witness :
  let host_hint := hostOracle (Some bob) (Rejected ThrownValue) in
  let backend_hint :=
    backendOracle (Some alice) (Some account_B) (Fulfilled (Some [])) in
  (FarcasterUser.primaryAddress bob = Some account_B /\
   noLiveAccount host_hint /\
   UserData.address (record_of (uninterrupted disconnected host_hint))
   = Some account_B /\
   UserData.isWalletConnected (record_of (uninterrupted disconnected host_hint))
   = true) /\
  (truthy (FarcasterUser.primaryAddress alice) = false /\
   on_res_json backend_hint
   = Fulfilled (Obj {| api_primaryAddress := Some account_B |}) /\
   noLiveAccount backend_hint /\
   UserData.address (record_of (uninterrupted disconnected backend_hint))
   = Some account_B /\
   UserData.isWalletConnected
     (record_of (uninterrupted disconnected backend_hint)) = true).
Proof.
  assert (Hne : account_B <> EmptyString) by discriminate.
  assert (Hno1 : noLiveAccount (hostOracle (Some bob) (Rejected ThrownValue))).
  { right; left. exists ThrownValue. reflexivity. }
  assert (Hno2 : noLiveAccount
                   (backendOracle (Some alice) (Some account_B)
                      (Fulfilled (Some [])))).
  { right; right; right. reflexivity. }
  split.
  - split; [reflexivity | split; [exact Hno1 |]].
    pose proof (hint_alone_connects disconnected
                  (hostOracle (Some bob) (Rejected ThrownValue)) bob account_B
                  eq_refl eq_refl Hne (or_introl eq_refl) Hno1) as H.
    split; apply H.
  - split; [reflexivity | split; [reflexivity | split; [exact Hno2 |]]].
    pose proof (hint_alone_connects disconnected
                  (backendOracle (Some alice) (Some account_B)
                     (Fulfilled (Some [])))
                  alice account_B eq_refl eq_refl Hne
                  (or_intror
                     (conj eq_refl
                        (ex_intro _ {| api_primaryAddress := Some account_B |}
                           (conj eq_refl (conj eq_refl eq_refl)))))
                  Hno2) as H.
    split; apply H.
Defined.


Lemma standalone_has_no_identity_witness :
  let evs := [Render connected_B browserOracle; Settle 0] in
  UserData.isMiniApp (record_of (run evs)) = false /\
  UserData.isLoading (record_of (run evs)) = false /\
  UserData.fid (record_of (run evs)) = None.
Proof.
  split; [reflexivity | split; [reflexivity |]].
  apply (standalone_has_no_identity
           [Render connected_B browserOracle; Settle 0] eq_refl).
Defined.

Lemma connected_record_has_address_witness :
  let evs := [Render disconnected
                (hostOracle (Some alice) (Fulfilled (Some [account_A])));
              Settle 0; Settle 0; Settle 0; Settle 0] in
  UserData.isWalletConnected (record_of (run evs)) = true /\
  exists s,
    UserData.address (record_of (run evs)) = Some s /\
    wellFormedAddress s = true.
Proof.
  split; [reflexivity |].
  apply connected_record_has_address; [| reflexivity].
  repeat constructor; simpl; try discriminate.
  intros X c. destruct c; simpl; auto.
Defined.


(** * Further properties of the hooks *)

(** ** More about the record *)

Lemma initializeUser_errorAfterLoading (d : deps) :
  always (@any_result) (@commits_keep errorAfterLoading) (initializeUser d).
Proof.
  open_initializeUser.
  walk ltac:(try exact I;
             intros r Hr; unfold errorAfterLoading in *; cbn in *;
             intros; try reflexivity; try congruence; auto).
Qed.

(** X1: whatever happens to the component, a record that carries an
    error message is not loading. *)
Theorem error_only_when_not_loading (evs : list event) (msg : string) :
  UserData.error (record_of (run evs)) = Some msg ->
  UserData.isLoading (record_of (run evs)) = false.
Proof.
  intros Herr.
  assert (H : world_keeps (@any_result) errorAfterLoading (run evs)).
  { apply run_keeps with (event_ok := fun _ => True).
    - intros H. exfalso. apply H. reflexivity.
    - intros d o _. split.
      + apply answers_any.
      + apply initializeUser_errorAfterLoading.
    - apply Forall_forall. intros ev _. exact I. }
  destruct H as [H _]. apply H. rewrite Herr. discriminate.
Qed.

Lemma browserRecord_addressCoherent (d : deps) : addressCoherent (browserRecord d).
Proof.
  split; simpl.
  - destruct (isConnected d); [reflexivity | discriminate].
  - discriminate.
Qed.

Lemma initializeUser_addressCoherent (d : deps) :
  always (@any_result) (@commits_keep addressCoherent) (initializeUser d).
Proof.
  open_initializeUser.
  walk ltac:(try exact I;
             intros r Hr; try apply browserRecord_addressCoherent;
             try exact Hr;
             split; cbn; intros; try discriminate; auto).
Qed.

(** X2: whatever happens to the component, a record with a non-empty
    address reports the wallet as connected, and a miniapp record
    reports the wallet as connected exactly when its address is
    non-empty. *)
Theorem address_and_connection_agree (evs : list event) :
  (truthy (UserData.address (record_of (run evs))) = true ->
   UserData.isWalletConnected (record_of (run evs)) = true) /\
  (UserData.isMiniApp (record_of (run evs)) = true ->
   UserData.isWalletConnected (record_of (run evs))
   = truthy (UserData.address (record_of (run evs)))).
Proof.
  assert (H : world_keeps (@any_result) addressCoherent (run evs)).
  { apply run_keeps with (event_ok := fun _ => True).
    - split; discriminate.
    - intros d o _. split.
      + apply answers_any.
      + apply initializeUser_addressCoherent.
    - apply Forall_forall. intros ev _. exact I. }
  destruct H as [H _]. exact H.
Qed.

(** ** Uninterrupted runs *)

Lemma run_outside_host (d : deps) (o : oracle) :
  signals o = false ->
  let w := uninterrupted d o in
  finished 0 w = true /\ record_of w = resolved d o /\ ready_count 0 w = 0.
Proof.
  destruct o as [mini ctx fetch json provider wallet].
  unfold signals, resolved; simpl.
  destruct mini as [[|]|?]; [destruct ctx as [[?|]|?] | |];
    intros H; try discriminate; repeat split; reflexivity.
Qed.

(** X3: a run that nothing interrupts always returns, after at most five
    settled promises, and leaves a record that is not loading.  The
    record is decided by the host check and the identity fetch alone:
    initialisation-failed when the check is rejected, the browser record
    when it says no, authentication-failed when the identity fetch is
    rejected, identity-unavailable when it gives no user, the host
    record otherwise; readiness is signalled once in the last case and
    never in the others. *)
Theorem uninterrupted_outcome (d : deps) (o : oracle) :
  let w := uninterrupted d o in
  finished 0 w = true /\
  record_of w = resolved d o /\
  UserData.isLoading (record_of w) = false /\
  forall later,
    ready_count 0 (fold_left step later w) = if signals o then 1 else 0.
Proof.
  intros w.
  assert (Hbase : finished 0 w = true /\ record_of w = resolved d o /\
                  ready_count 0 w = if signals o then 1 else 0).
  { destruct (signals o) eqn:Hs.
    - unfold signals in Hs.
      destruct (on_isInMiniApp o) as [[|]|?] eqn:Hm; try discriminate.
      destruct (on_context o) as [[u|]|?] eqn:Hc; try discriminate.
      destruct (host_run d o u Hm Hc) as (Hr & Hfin & Hready & _).
      fold w in Hr, Hfin, Hready.
      unfold resolved. rewrite Hm, Hc. auto.
    - apply run_outside_host. exact Hs. }
  destruct Hbase as (Hfin & Hr & Hready).
  split; [exact Hfin | split; [exact Hr | split]].
  - rewrite Hr. unfold resolved.
    destruct (on_isInMiniApp o) as [[|]|?]; try reflexivity.
    destruct (on_context o) as [[?|]|?]; reflexivity.
  - intros later. destruct (finished_quiet later 0 w Hfin) as [_ Hcount].
    unfold ready_count. rewrite Hcount. exact Hready.
Qed.

(** X4: outside the host a run shows the loading record, asks the host
    check, commits the browser record, and does nothing else, ever: no
    identity fetch, no backend fetch, no wallet request, no connector
    activation, no readiness signal. *)
Theorem browser_run_trace (d : deps) (o : oracle) (later : list event) :
  on_isInMiniApp o = Fulfilled false ->
  own 0 (fold_left step later (uninterrupted d o))
  = [Committed (startLoading initialUserData);
     Requested isInMiniApp;
     Committed (browserRecord d)].
Proof.
  intros Hm.
  assert (Hbase : finished 0 (uninterrupted d o) = true /\
                  own 0 (uninterrupted d o)
                  = [Committed (startLoading initialUserData);
                     Requested isInMiniApp;
                     Committed (browserRecord d)]).
  { destruct o; simpl in Hm; subst. split; reflexivity. }
  destruct Hbase as [Hfin Hown].
  rewrite (finished_own later 0 _ Hfin). exact Hown.
Qed.

(** X5: which address a host run ends on when the wallet hands back no
    account.  The primary address of the host profile wins when it is
    non-empty, whatever the backend says.  Otherwise the address is the
    primary address of the backend profile, and that only when the fetch
    resolved with [ok] and its body parsed to an object; a backend fetch
    that is rejected, not [ok], or whose body is rejected or [null]
    leaves the address absent and the run still ends on the host
    record. *)
Theorem address_fallback_order (d : deps) (o : oracle) (u : FarcasterUser.t) :
  on_isInMiniApp o = Fulfilled true ->
  on_context o = Fulfilled (Some u) ->
  noLiveAccount o ->
  let r := record_of (uninterrupted d o) in
  identityOf u r /\ UserData.error r = None /\
  (truthy (FarcasterUser.primaryAddress u) = true ->
   UserData.address r = FarcasterUser.primaryAddress u) /\
  (truthy (FarcasterUser.primaryAddress u) = false ->
   forall body,
     on_quickAuth_fetch o = Fulfilled true ->
     on_res_json o = Fulfilled (Obj body) ->
     UserData.address r = api_primaryAddress body) /\
  (truthy (FarcasterUser.primaryAddress u) = false ->
   (forall body, on_quickAuth_fetch o = Fulfilled true ->
                 on_res_json o <> Fulfilled (Obj body)) ->
   UserData.address r = None).
Proof.
  intros Hm Hc Hno r.
  destruct (host_run d o u Hm Hc) as (Hr & _).
  subst r. rewrite Hr, (connectedAddress_hint u o Hno).
  unfold hint_of, js_or, apiUserData_of.
  split; [repeat split | split; [reflexivity | split; [| split]]]; simpl.
  - intros ->. reflexivity.
  - intros -> body -> ->. reflexivity.
  - intros -> Hbody.
    destruct (on_quickAuth_fetch o) as [[|]|?]; try reflexivity.
    destruct (on_res_json o) as [[|body]|?]; try reflexivity.
    exfalso. apply (Hbody body); reflexivity.
Qed.

(** X6: in a host run with a user profile, [connect] is called exactly
    when the provider handed back a first account, a connector with id
    farcasterMiniApp exists and wagmi does not report a connection; and
    then once. *)
Theorem connector_activated_iff (d : deps) (o : oracle) (u : FarcasterUser.t) :
  on_isInMiniApp o = Fulfilled true ->
  on_context o = Fulfilled (Some u) ->
  let w := uninterrupted d o in
  count 0 is_connect w <= 1 /\
  (count 0 is_connect w = 1 <->
   (exists account0 others,
      has_ethProvider o = true /\
      on_eth_requestAccounts o = Fulfilled (Some (account0 :: others))) /\
   hasFarcasterConnector d = true /\ isConnected d = false).
Proof.
  intros Hm Hc w.
  destruct (host_run d o u Hm Hc) as (_ & _ & _ & _ & Hconnect).
  fold w in Hconnect. rewrite Hconnect. unfold liveAccount_of.
  destruct (has_ethProvider o);
    [destruct (on_eth_requestAccounts o) as [[[|a l]|]|?] |];
    destruct (hasFarcasterConnector d), (isConnected d); simpl;
    (split; [lia |]); split;
    try (intros H; discriminate H);
    try (intros ((? & ? & ? & H) & _); discriminate H);
    try (intros ((? & ? & H & _) & _); discriminate H);
    try (intros (_ & H & _); discriminate H);
    try (intros (_ & _ & H); discriminate H);
    try (intros _; repeat split; eauto).
Qed.

(** ** Protocols of a run *)

Section ProtocolKept.
Variable Q : Type.
Variable delta : deps -> oracle -> Q -> observation -> option Q.
Variable start : Q.
Hypothesis initializeUser_follows :
  forall d o, follows delta d o start (initializeUser d).

Lemma delta_all_app d o q obs obs' :
  delta_all delta d o q (obs ++ obs')
  = match delta_all delta d o q obs with
    | Some q' => delta_all delta d o q' obs'
    | None => None
    end.
Proof.
  revert q. induction obs as [|ob obs IH]; intros q; simpl.
  - reflexivity.
  - destruct (delta d o q ob); [apply IH | reflexivity].
Qed.

Lemma exec_follows d o i mounted q (p : prog eff unit) :
  follows delta d o q p ->
  forall s, exists obs q',
    trace (fst (exec o i mounted p s)) = trace s ++ map (pair i) obs /\
    delta_all delta d o q obs = Some q' /\
    match snd (exec o i mounted p s) with
    | Some p' => follows delta d o q' p'
    | None => True
    end.
Proof.
  induction 1 as [q a | q e | q X e k Hsome Hk IH]; intros s.
  - exists [], q. simpl. rewrite app_nil_r. auto.
  - exists [], q. simpl. rewrite app_nil_r. auto.
  - cbn [exec].
    destruct (delta_opt delta d o q (seen e (userData s))) as [q1|] eqn:Hq1;
      [| exfalso; exact (Hsome _ Hq1)].
    assert (Hp : exists obs1,
               trace (perform i e s) = trace s ++ map (pair i) obs1 /\
               delta_all delta d o q obs1 = Some q1).
    { unfold perform; cbn [trace]. destruct (seen e (userData s)) as [ob|].
      - exists [ob]. split; [reflexivity |]. simpl in *. rewrite Hq1. reflexivity.
      - exists []. split; [reflexivity |]. simpl in *. exact Hq1. }
    destruct Hp as (obs1 & Hp & Hm1).
    destruct (suspends e); cbn [fst snd].
    + exists obs1, q1. split; [exact Hp | split; [exact Hm1 |]].
      apply (Hk mounted _ _ Hq1).
    + destruct (IH mounted _ _ Hq1 (perform i e s))
        as (obs2 & q2 & H2 & Hm2 & Hrest).
      exists (obs1 ++ obs2), q2. split; [| split].
      * rewrite H2, Hp, map_app, app_assoc. reflexivity.
      * rewrite delta_all_app, Hm1. exact Hm2.
      * exact Hrest.
Qed.

Lemma attempt_follows_ext t t' i (a a' : attempt) :
  own_of i t' = own_of i t ->
  a_deps a' = a_deps a ->
  a_oracle a' = a_oracle a ->
  a_rest a' = a_rest a ->
  attempt_follows delta start t i a -> attempt_follows delta start t' i a'.
Proof.
  intros Ht Hd Ho Hr (q & Hq & Hp). exists q.
  rewrite Ht, Hd, Ho, Hr. auto.
Qed.

Lemma cleanup_lookup_deps (l : list attempt) k a' :
  cleanup l !! k = Some a' ->
  exists a, l !! k = Some a /\ a_deps a' = a_deps a /\
            a_oracle a' = a_oracle a /\ a_rest a' = a_rest a.
Proof.
  unfold cleanup. rewrite list_lookup_alter.
  destruct (decide (pred (length l) = k)) as [<-|_].
  - intros H. apply fmap_Some in H. destruct H as (a & Hk & ->).
    exists a. repeat split. exact Hk.
  - intros H. exists a'. repeat split. exact H.
Qed.

Lemma step_protocol (w : world) (ev : event) :
  protocol_kept delta start w -> protocol_kept delta start (step w ev).
Proof.
  intros [Htags Hall]. destruct ev as [d o | | i]; unfold step.
  - pose proof (cleanup_length (w_attempts w)) as Hlen.
    destruct (exec_follows d o (length (cleanup (w_attempts w))) true start
                (initializeUser d) (initializeUser_follows d o) (w_store w))
      as (obs & q' & Htr & Hm & Hrest).
    destruct (exec o _ true (initializeUser d) (w_store w)) as [s rest].
    cbn [fst snd] in Htr, Hrest. split; cbn [w_store w_attempts].
    + intros j ob Hin. rewrite length_app, Hlen. simpl.
      rewrite Htr in Hin. apply in_app_or in Hin. destruct Hin as [Hin | Hin].
      * apply Htags in Hin. lia.
      * apply in_tagged in Hin. lia.
    + intros k a Hk. apply lookup_app_Some in Hk.
      destruct Hk as [Hk | [Hge Hk]].
      * pose proof (lookup_lt_Some _ _ _ Hk) as Hlt.
        destruct (cleanup_lookup_deps _ _ _ Hk) as (a0 & Hk0 & Hd & Ho & Hr).
        apply (attempt_follows_ext (trace (w_store w)) _ k a0 a); auto.
        rewrite Htr, own_of_app, own_of_tagged_other by lia.
        apply app_nil_r.
      * destruct (k - length (cleanup (w_attempts w))) as [|n] eqn:Hdiff;
          [| discriminate].
        injection Hk as <-.
        assert (k = length (cleanup (w_attempts w))) as -> by lia.
        exists q'. cbn [a_deps a_oracle a_rest]. split; [| exact Hrest].
        rewrite Htr, own_of_app, own_of_tagged_same.
        rewrite own_of_fresh; [exact Hm |].
        intros j ob Hin. apply Htags in Hin. lia.
  - split; cbn [w_store w_attempts].
    + intros j ob Hin. rewrite cleanup_length. apply (Htags j ob). exact Hin.
    + intros k a Hk.
      destruct (cleanup_lookup_deps _ _ _ Hk) as (a0 & Hk0 & Hd & Ho & Hr).
      apply (attempt_follows_ext (trace (w_store w)) _ k a0 a); auto.
  - destruct (w_attempts w !! i) as [a|] eqn:Ha; [| split; assumption].
    destruct (a_rest a) as [p|] eqn:Hp; [| split; assumption].
    destruct (Hall i a Ha) as (q & Hq & Hfollows). rewrite Hp in Hfollows.
    destruct (exec_follows (a_deps a) (a_oracle a) i (a_isMounted a) q p
                Hfollows (w_store w)) as (obs & q' & Htr & Hm & Hrest).
    destruct (exec (a_oracle a) i (a_isMounted a) p (w_store w)) as [s rest].
    cbn [fst snd] in Htr, Hrest.
    pose proof (lookup_lt_Some _ _ _ Ha) as Hlt.
    split; cbn [w_store w_attempts].
    + intros j ob Hin. rewrite length_insert.
      rewrite Htr in Hin. apply in_app_or in Hin. destruct Hin as [Hin | Hin].
      * apply Htags in Hin. exact Hin.
      * apply in_tagged in Hin. lia.
    + intros k b Hk. destruct (decide (i = k)) as [<- | Hne].
      * rewrite list_lookup_insert_eq in Hk by exact Hlt.
        injection Hk as <-. exists q'. cbn [a_deps a_oracle a_rest].
        split; [| exact Hrest].
        rewrite Htr, own_of_app, own_of_tagged_same, delta_all_app, Hq.
        exact Hm.
      * rewrite list_lookup_insert_ne in Hk by exact Hne.
        apply (attempt_follows_ext (trace (w_store w)) _ k b b); auto.
        rewrite Htr, own_of_app, own_of_tagged_other by auto.
        apply app_nil_r.
Qed.

Lemma run_protocol (evs : list event) : protocol_kept delta start (run evs).
Proof.
  unfold run.
  assert (H0 : protocol_kept delta start init).
  { split; [intros j ob [] | intros i a H; discriminate]. }
  revert H0. generalize init.
  induction evs as [|ev evs IH]; intros w Hw; simpl.
  - exact Hw.
  - apply IH. apply step_protocol. exact Hw.
Qed.

(** What a run has done so far is accepted by the protocol. *)
Lemma run_accepted (evs : list event) (i : nat) (a : attempt) :
  w_attempts (run evs) !! i = Some a ->
  exists q,
    delta_all delta (a_deps a) (a_oracle a) start (own i (run evs)) = Some q.
Proof.
  intros Ha. destruct (run_protocol evs) as [_ Hall].
  destruct (Hall i a Ha) as (q & Hq & _). exists q. exact Hq.
Qed.
End ProtocolKept.

Ltac walk_follows :=
  cbn;
  lazymatch goal with
  | |- follows _ _ _ _ (Ret _) => apply follows_Ret
  | |- follows _ _ _ _ (Throw _) => apply follows_Throw
  | |- follows _ _ _ _ (Vis _ _) =>
      apply follows_Vis;
      [ intros ?; cbn; discriminate
      | intros ? ? ? Hadv; cbn in Hadv; injection Hadv as <-; walk_follows ]
  | |- follows _ _ _ _ _ => split_scrutinee; walk_follows
  end.

(** *** The order of the calls *)

Lemma initializeUser_in_order (d : deps) (o : oracle) :
  follows in_order d o 0 (initializeUser d).
Proof.
  destruct o as [mini ctx fetch json provider wallet].
  open_initializeUser.
  walk_follows.
Qed.

Lemma in_order_sorted (d : deps) (o : oracle) (obs : list observation) :
  forall q q', delta_all in_order d o q obs = Some q' ->
  StronglySorted lt (ranks obs) /\ Forall (fun n => q <= n) (ranks obs).
Proof.
  induction obs as [|ob obs IH]; intros q q' H; simpl in *.
  - split; constructor.
  - unfold in_order in H. destruct (rank ob) as [n|].
    + destruct (Nat.leb_spec q n) as [Hle|_]; [| discriminate].
      destruct (IH _ _ H) as [Hs Hall]. split.
      * constructor; [exact Hs | exact Hall].
      * constructor; [exact Hle |].
        eapply Forall_impl; [exact Hall |]. simpl. intros m Hm. lia.
    + apply (IH _ _ H).
Qed.

Lemma sorted_NoDup (l : list nat) : StronglySorted lt l -> NoDup l.
Proof.
  induction 1 as [|n l _ IH Hall]; constructor; [| exact IH].
  intros Hin. rewrite Forall_forall in Hall.
  specialize (Hall n Hin). lia.
Qed.

(** X7: whatever the interleaving, the outside calls of a run come in
    the order of the text: host check, identity, backend fetch, backend
    body, wallet request, connector activation, readiness signal.  None
    is made twice and none is made after a later one. *)
Theorem calls_in_order (evs : list event) (i : nat) :
  StronglySorted lt (ranks (own i (run evs))) /\
  NoDup (ranks (own i (run evs))).
Proof.
  assert (H : StronglySorted lt (ranks (own i (run evs)))).
  { destruct (w_attempts (run evs) !! i) as [a|] eqn:Ha.
    - destruct (run_accepted nat in_order 0 initializeUser_in_order evs i a Ha)
        as [q Hq].
      apply (in_order_sorted _ _ _ _ _ Hq).
    - rewrite (own_unstarted evs i Ha). constructor. }
  split; [exact H | apply sorted_NoDup; exact H].
Qed.

(** *** The commits of a run *)

Lemma initializeUser_commit_order (d : deps) (o : oracle) :
  follows commit_order d o Fresh (initializeUser d).
Proof.
  destruct o as [mini ctx fetch json provider wallet].
  open_initializeUser.
  walk_follows.
Qed.

Lemma settled_tail (d : deps) (o : oracle) (obs : list observation) :
  forall q', delta_all commit_order d o Settled obs = Some q' ->
  forallb after_terminal obs = true.
Proof.
  induction obs as [|ob obs IH]; intros q' H; simpl in *.
  - reflexivity.
  - destruct ob; simpl in *; try discriminate; apply (IH _ H).
Qed.

Lemma loading_shape (d : deps) (o : oracle) (obs : list observation) :
  forall q', delta_all commit_order d o Loading obs = Some q' ->
  forallb while_loading obs = true \/
  exists mid r post,
    obs = mid ++ Committed r :: post /\
    forallb while_loading mid = true /\
    UserData.isLoading r = false /\
    forallb after_terminal post = true.
Proof.
  induction obs as [|ob obs IH]; intros q' H; simpl in *.
  - left. reflexivity.
  - destruct ob as [X c | r | | | l msg]; simpl in *; try discriminate.
    + destruct (IH _ H) as [Hall | (mid & r & post & -> & Hmid & Hr & Hpost)].
      * left. exact Hall.
      * right. exists (Requested c :: mid), r, post. auto.
    + destruct (UserData.isLoading r) eqn:Hr; [discriminate |].
      right. exists [], r, obs. repeat split; try assumption.
      apply (settled_tail d o obs q' H).
    + destruct (IH _ H) as [Hall | (mid & r & post & -> & Hmid & Hr & Hpost)].
      * left. exact Hall.
      * right. exists (Connected :: mid), r, post. auto.
    + destruct (IH _ H) as [Hall | (mid & r & post & -> & Hmid & Hr & Hpost)].
      * left. exact Hall.
      * right. exists (Logged l msg :: mid), r, post. auto.
Qed.

(** X8: whatever the interleaving, what a run does has this shape: it
    first commits a loading record (loading, error cleared); then come
    its outside calls; then at most one more commit, of a record that is
    not loading; after that record it makes no call and no commit, and
    at most signals readiness.  So each run turns loading off at most
    once and never back on. *)
Theorem commits_of_a_run (evs : list event) (i : nat) :
  own i (run evs) = [] \/
  exists r0 mid,
    loadingRecord r0 = true /\
    forallb while_loading mid = true /\
    (own i (run evs) = Committed r0 :: mid \/
     exists r1 post,
       own i (run evs) = Committed r0 :: mid ++ Committed r1 :: post /\
       UserData.isLoading r1 = false /\
       forallb after_terminal post = true).
Proof.
  destruct (w_attempts (run evs) !! i) as [a|] eqn:Ha;
    [| left; apply (own_unstarted evs i Ha)].
  destruct (run_accepted stage commit_order Fresh initializeUser_commit_order
              evs i a Ha) as [q Hq].
  destruct (own i (run evs)) as [|ob obs]; [left; reflexivity | right].
  simpl in Hq. destruct ob as [X c | r0 | | | l msg]; simpl in Hq;
    try discriminate.
  destruct (loadingRecord r0) eqn:Hr0; [| discriminate].
  destruct (loading_shape (a_deps a) (a_oracle a) obs q Hq)
    as [Hall | (mid & r1 & post & -> & Hmid & Hr1 & Hpost)].
  - exists r0, obs. auto.
  - exists r0, mid. split; [exact Hr0 | split; [exact Hmid |]].
    right. exists r1, post. auto.
Qed.

(** *** What each call depends on *)

Lemma initializeUser_gate (d : deps) (o : oracle) :
  follows gate d o tt (initializeUser d).
Proof.
  destruct o as [mini ctx fetch json provider wallet].
  destruct d as [wa [|] [|]];
    open_initializeUser;
    walk_follows.
Qed.

Lemma gate_all (d : deps) (o : oracle) (obs : list observation) :
  forall q q', delta_all gate d o q obs = Some q' ->
  forall ob, In ob obs -> permitted d o ob = true.
Proof.
  induction obs as [|ob0 obs IH]; intros q q' H ob Hin; simpl in *.
  - destruct Hin.
  - unfold gate in H at 1. destruct (permitted d o ob0) eqn:Hp; [| discriminate].
    destruct Hin as [<- | Hin]; [exact Hp | apply (IH _ _ H ob Hin)].
Qed.

Lemma host_of_signals (o : oracle) :
  signals o = true ->
  on_isInMiniApp o = Fulfilled true /\
  exists u, on_context o = Fulfilled (Some u).
Proof.
  unfold signals.
  destruct (on_isInMiniApp o) as [[|]|?]; try discriminate.
  destruct (on_context o) as [[u|]|?]; try discriminate.
  intros _. split; [reflexivity | exists u; reflexivity].
Qed.

Lemma account_of_live (o : oracle) :
  has_account (liveAccount_of o) = true ->
  exists account0 others,
    has_ethProvider o = true /\
    on_eth_requestAccounts o = Fulfilled (Some (account0 :: others)).
Proof.
  unfold liveAccount_of.
  destruct (has_ethProvider o); [| discriminate].
  destruct (on_eth_requestAccounts o) as [[[|a l]|]|?]; try discriminate.
  intros _. exists a, l. auto.
Qed.

(** X9: whatever the interleaving, a run makes an outside call only on
    the path that leads to it.  It fetches the identity only when the
    host check said yes; it asks the backend only when the identity
    fetch gave a user, and parses the body only when the response was
    ok; it asks the wallet only when, besides, a provider exists; it
    activates the connector only when the provider handed back a first
    account, the connector exists and wagmi reported no connection. *)
Theorem calls_follow_their_path (evs : list event) (i : nat) (a : attempt) :
  w_attempts (run evs) !! i = Some a ->
  (In (Requested context) (own i (run evs)) ->
   on_isInMiniApp (a_oracle a) = Fulfilled true) /\
  (In (Requested quickAuth_fetch) (own i (run evs)) ->
   on_isInMiniApp (a_oracle a) = Fulfilled true /\
   exists u, on_context (a_oracle a) = Fulfilled (Some u)) /\
  (In (Requested res_json) (own i (run evs)) ->
   on_quickAuth_fetch (a_oracle a) = Fulfilled true) /\
  (In (Requested eth_requestAccounts) (own i (run evs)) ->
   (on_isInMiniApp (a_oracle a) = Fulfilled true /\
    exists u, on_context (a_oracle a) = Fulfilled (Some u)) /\
   has_ethProvider (a_oracle a) = true) /\
  (In Connected (own i (run evs)) ->
   (exists account0 others,
      has_ethProvider (a_oracle a) = true /\
      on_eth_requestAccounts (a_oracle a)
      = Fulfilled (Some (account0 :: others))) /\
   hasFarcasterConnector (a_deps a) = true /\
   isConnected (a_deps a) = false).
Proof.
  intros Ha.
  destruct (run_accepted unit gate tt initializeUser_gate evs i a Ha)
    as [q Hq].
  pose proof (gate_all _ _ _ _ _ Hq) as Hgate.
  split; [| split; [| split; [| split]]];
    intros Hin; specialize (Hgate _ Hin); simpl in Hgate.
  - unfold is_host in Hgate.
    destruct (on_isInMiniApp (a_oracle a)) as [[|]|?];
      [reflexivity | discriminate | discriminate].
  - apply (host_of_signals _ Hgate).
  - apply andb_prop in Hgate. destruct Hgate as [_ Hf]. unfold fetch_ok in Hf.
    destruct (on_quickAuth_fetch (a_oracle a)) as [[|]|?];
      [reflexivity | discriminate | discriminate].
  - apply andb_prop in Hgate. destruct Hgate as [Hs Hp].
    split; [apply (host_of_signals _ Hs) | exact Hp].
  - apply andb_prop in Hgate. destruct Hgate as [Hgate Hconn].
    apply andb_prop in Hgate. destruct Hgate as [Hgate Hconnector].
    apply andb_prop in Hgate. destruct Hgate as [_ Hlive].
    split; [apply account_of_live; exact Hlive | split; [exact Hconnector |]].
    destruct (isConnected (a_deps a)); [discriminate | reflexivity].
Qed.

(** ** Runs that are cleaned up early *)

Lemma perform_harmless (i : nat) X (e : eff X) (s : store) :
  harmless e ->
  userData (perform i e s) = userData s /\
  exists obs, trace (perform i e s) = trace s ++ map (pair i) obs /\
              forallb harmless_obs obs = true.
Proof.
  destruct e as [Y c | f | | | | | l msg]; simpl; intros H;
    try destruct H; (split; [reflexivity |]).
  - exists [Requested c]. split; [reflexivity |].
    destruct c; simpl in *; try reflexivity; destruct H.
  - exists []. split; reflexivity.
  - exists []. split; reflexivity.
  - exists [Logged l msg]. split; reflexivity.
Qed.

Lemma exec_unmounted (o : oracle) (i : nat) (p : prog eff unit) :
  always (@unmounted_result) (@harmless) p ->
  forall s,
    userData (fst (exec o i false p s)) = userData s /\
    (exists obs,
        trace (fst (exec o i false p s)) = trace s ++ map (pair i) obs /\
        forallb harmless_obs obs = true) /\
    match snd (exec o i false p s) with
    | Some q => always (@unmounted_result) (@harmless) q
    | None => True
    end.
Proof.
  induction 1 as [a | e | X e k Hgood Hk IH]; intros s.
  - simpl. split; [reflexivity | split; [| exact I]].
    exists []. split; [symmetry; apply app_nil_r | reflexivity].
  - simpl. split; [reflexivity | split; [| exact I]].
    exists []. split; [symmetry; apply app_nil_r | reflexivity].
  - cbn [exec].
    destruct (perform_harmless i X e s Hgood) as (Hu & obs1 & Htr1 & Hq1).
    assert (Hx : unmounted_result e (result o false e)).
    { destruct e; simpl; auto. }
    destruct (suspends e); cbn [fst snd].
    + split; [exact Hu | split; [| apply Hk; exact Hx]].
      exists obs1. auto.
    + destruct (IH _ Hx (perform i e s)) as (Hu2 & (obs2 & Htr2 & Hq2) & Hrest).
      split; [rewrite Hu2; exact Hu | split; [| exact Hrest]].
      exists (obs1 ++ obs2). split.
      * rewrite Htr2, Htr1, map_app, app_assoc. reflexivity.
      * rewrite forallb_app, Hq1, Hq2. reflexivity.
Qed.

Lemma step_cancelled_early (w : world) (ev : event) (i : nat) :
  cancelled_early i w ->
  cancelled_early i (step w ev) /\
  exists obs, own i (step w ev) = own i w ++ obs /\
              forallb harmless_obs obs = true.
Proof.
  intros (a & Ha & Hm & Hrest).
  pose proof (lookup_lt_Some _ _ _ Ha) as Hlt.
  assert (Hclean : exists a', cleanup (w_attempts w) !! i = Some a' /\
                              a_isMounted a' = false /\ a_rest a' = a_rest a).
  { unfold cleanup. rewrite list_lookup_alter.
    destruct (decide (pred (length (w_attempts w)) = i)) as [Heq|_].
    - rewrite Heq, Ha. exists (unmountAttempt a). auto.
    - exists a. auto. }
  destruct Hclean as (a' & Ha' & Hm' & Hrest').
  unfold own. destruct ev as [d o | | j]; unfold step.
  - destruct (exec_appends o (length (cleanup (w_attempts w))) true
                (initializeUser d) (w_store w)) as [obs Htr].
    destruct (exec o _ true (initializeUser d) (w_store w)) as [s rest].
    cbn [fst] in Htr. cbn [w_store w_attempts]. split.
    + exists a'. cbn [w_attempts].
      rewrite (lookup_app_l_Some _ _ _ _ Ha'), Hrest'. auto.
    + exists []. split; [| reflexivity].
      rewrite Htr, own_of_app, own_of_tagged_other; [reflexivity |].
      rewrite cleanup_length. lia.
  - cbn [w_store w_attempts]. split.
    + exists a'. cbn [w_attempts]. rewrite Hrest'. auto.
    + exists []. split; [symmetry; apply app_nil_r | reflexivity].
  - destruct (decide (j = i)) as [-> | Hne].
    + rewrite Ha. destruct (a_rest a) as [p|] eqn:Hp.
      * destruct (exec_unmounted (a_oracle a) i p Hrest (w_store w))
          as (_ & (obs & Htr & Hq) & Hrest2).
        rewrite Hm.
        destruct (exec (a_oracle a) i false p (w_store w)) as [s rest].
        cbn [fst snd] in Htr, Hrest2. cbn [w_store w_attempts]. split.
        -- eexists. cbn [w_attempts].
           rewrite list_lookup_insert_eq by exact Hlt.
           split; [reflexivity | split; [reflexivity | exact Hrest2]].
        -- exists obs. split; [| exact Hq].
           rewrite Htr, own_of_app, own_of_tagged_same. reflexivity.
      * split.
        -- exists a. rewrite Hp. auto.
        -- exists []. split; [symmetry; apply app_nil_r | reflexivity].
    + assert (Hsame : cancelled_early i w) by (exists a; auto).
      destruct (w_attempts w !! j) as [b|] eqn:Hb;
        [| split; [exact Hsame |
                   exists []; split; [symmetry; apply app_nil_r | reflexivity]]].
      destruct (a_rest b) as [p|] eqn:Hp;
        [| split; [exact Hsame |
                   exists []; split; [symmetry; apply app_nil_r | reflexivity]]].
      destruct (exec_appends (a_oracle b) j (a_isMounted b) p (w_store w))
        as [obs Htr].
      destruct (exec (a_oracle b) j (a_isMounted b) p (w_store w)) as [s rest].
      cbn [fst] in Htr. cbn [w_store w_attempts]. split.
      * exists a. cbn [w_attempts].
        rewrite list_lookup_insert_ne by exact Hne. auto.
      * exists []. split; [| reflexivity].
        rewrite Htr, own_of_app, own_of_tagged_other by auto. reflexivity.
Qed.

Lemma cancelled_early_quiet (later : list event) (i : nat) :
  forall w, cancelled_early i w ->
  exists obs, own i (fold_left step later w) = own i w ++ obs /\
              forallb harmless_obs obs = true.
Proof.
  induction later as [|ev later IH]; intros w Hw; simpl.
  - exists []. split; [symmetry; apply app_nil_r | reflexivity].
  - destruct (step_cancelled_early w ev i Hw) as (Hw' & obs1 & H1 & Hq1).
    destruct (IH _ Hw') as (obs2 & H2 & Hq2).
    exists (obs1 ++ obs2). split.
    + rewrite H2, H1, app_assoc. reflexivity.
    + rewrite forallb_app, Hq1, Hq2. reflexivity.
Qed.

Ltac walk_unmounted :=
  cbn;
  lazymatch goal with
  | |- always _ _ (Ret _) => apply always_Ret
  | |- always _ _ (Throw _) => apply always_Throw
  | |- always _ _ (Vis _ _) =>
      apply always_Vis;
      [ cbn; exact I
      | let x := fresh "x" in
        let Hx := fresh "Hx" in
        intros x Hx; cbn in Hx; try subst x; walk_unmounted ]
  | |- always _ _ _ => split_scrutinee; walk_unmounted
  end.

Lemma cleaned_before_host_check (d : deps) (o : oracle) :
  cancelled_early 0 (run [Render d o; Unmount]).
Proof.
  destruct o as [mini ctx fetch json provider wallet].
  unfold cancelled_early, run. open_initializeUser. cbn.
  eexists. split; [reflexivity | split; [reflexivity |]].
  walk_unmounted.
Qed.

Lemma cleaned_before_identity (d : deps) (o : oracle) :
  cancelled_early 0 (run [Render d o; Settle 0; Unmount]).
Proof.
  destruct o as [mini ctx fetch json provider wallet].
  unfold cancelled_early, run. open_initializeUser.
  destruct mini as [[|]|?]; cbn;
    (eexists; split; [reflexivity | split; [reflexivity |]]);
    try exact I.
  walk_unmounted.
Qed.

Lemma harmless_filter (what : observation -> bool) (obs : list observation) :
  (forall ob, harmless_obs ob = true -> what ob = false) ->
  forallb harmless_obs obs = true ->
  List.filter what obs = [].
Proof.
  intros Hwhat. induction obs as [|ob obs IH]; simpl; intros H.
  - reflexivity.
  - apply andb_prop in H. destruct H as [Hob Hobs].
    rewrite (Hwhat ob Hob). apply IH. exact Hobs.
Qed.

Lemma cancelled_early_count (later : list event) (i : nat) (w : world)
    (what : observation -> bool) :
  cancelled_early i w ->
  (forall ob, harmless_obs ob = true -> what ob = false) ->
  count i what (fold_left step later w) = count i what w.
Proof.
  intros Hw Hwhat.
  destruct (cancelled_early_quiet later i w Hw) as (obs & Hown & Hq).
  rewrite !count_own, Hown, List.filter_app, (harmless_filter what obs Hwhat Hq).
  rewrite app_nil_r. reflexivity.
Qed.

Lemma cancelled_early_dropped (later : list event) (i : nat) (w : world) :
  cancelled_early i w -> answer_dropped i w ->
  answer_dropped i (fold_left step later w).
Proof.
  intros Hw (H1 & H2 & H3 & H4 & H5).
  unfold answer_dropped, wallet_requests, ready_count in *.
  rewrite !(cancelled_early_count later i w _ Hw); auto;
    intros [X c | r | | | l msg] H; try discriminate H; try reflexivity;
    destruct c; try discriminate H; reflexivity.
Qed.

(** X10: a run that is cleaned up before its identity promise settles
    does no harm, whatever happens afterwards.  Cleaned up while the
    host check is pending, or while the identity fetch is pending, it
    commits nothing beyond its loading record, asks neither the backend
    nor the wallet, does not activate the connector and does not signal
    readiness. *)
Theorem early_cleanup_is_respected (d : deps) (o : oracle)
    (later : list event) :
  answer_dropped 0 (fold_left step later (run [Render d o; Unmount])) /\
  (on_isInMiniApp o = Fulfilled true ->
   answer_dropped 0
     (fold_left step later (run [Render d o; Settle 0; Unmount]))).
Proof.
  split.
  - apply cancelled_early_dropped; [apply cleaned_before_host_check |].
    destruct o. repeat split; reflexivity.
  - intros Hm.
    apply cancelled_early_dropped; [apply cleaned_before_identity |].
    destruct o; simpl in Hm; subst. repeat split; reflexivity.
Qed.

(** ** One call of [connectWallet] *)

Lemma connectWallet_unfold (d : FarcasterWallet.deps) :
  WalletCall.alreadyConnected d = false ->
  FarcasterWallet.connectWallet d
  = (trigger (FarcasterWallet.SetIsConnecting true) ;;
     trigger (FarcasterWallet.SetError None) ;;
     TRY (isMiniApp <- FarcasterWallet.await FarcasterWallet.isInMiniApp ;;
          if negb isMiniApp then
            trigger (FarcasterWallet.SetError
                       (Some "Not running in a Farcaster miniapp")) ;;
            trigger (FarcasterWallet.SetIsConnecting false) ;;
            Ret None
          else
            ethProvider <- trigger FarcasterWallet.EthProvider ;;
            if negb ethProvider then
              trigger (FarcasterWallet.SetError
                         (Some "Farcaster wallet provider not available")) ;;
              trigger (FarcasterWallet.SetIsConnecting false) ;;
              Ret None
            else
              accounts <- FarcasterWallet.await FarcasterWallet.eth_requestAccounts ;;
              match accounts with
              | Some (account0 :: _) =>
                  trigger (FarcasterWallet.Console LogLevel
                             "Wallet connected via Farcaster SDK:") ;;
                  (if FarcasterWallet.hasFarcasterConnector d
                   then trigger FarcasterWallet.Connect else Ret tt) ;;
                  trigger (FarcasterWallet.SetIsConnecting false) ;;
                  Ret (Some account0)
              | _ =>
                  trigger (FarcasterWallet.SetError
                             (Some "No accounts returned from wallet")) ;;
                  trigger (FarcasterWallet.SetIsConnecting false) ;;
                  Ret None
              end)
     CATCH err =>
         (trigger (FarcasterWallet.Console ErrorLevel "Wallet connection failed:") ;;
          trigger (FarcasterWallet.SetError (Some (FarcasterWallet.messageOf err))) ;;
          trigger (FarcasterWallet.SetIsConnecting false) ;;
          Ret None))%prog.
Proof.
  unfold WalletCall.alreadyConnected, FarcasterWallet.connectWallet.
  intros ->. reflexivity.
Qed.

Ltac run_connectWallet H :=
  unfold WalletCall.connectWallet; rewrite (connectWallet_unfold _ H);
  unfold FarcasterWallet.await, trigger; cbn.

(** X11: a call of [connectWallet] never rejects: every fault ends in a
    fulfilled promise.  The call asks the wallet at most once and
    activates the connector at most once.  When wagmi is already
    connected the state of the hook is left as it was; otherwise the
    call leaves [isConnecting] false, and it returns null exactly when
    it leaves an error message. *)
Theorem connectWallet_always_returns (d : FarcasterWallet.deps)
    (o : WalletCall.oracle) (st : WalletCall.state) :
  exists v done,
    fst (WalletCall.connectWallet d o st) = Fulfilled v /\
    WalletCall.actions (snd (WalletCall.connectWallet d o st))
    = WalletCall.actions st ++ done /\
    length (List.filter WalletCall.is_asked_wallet done) <= 1 /\
    length (List.filter WalletCall.is_activated done) <= 1 /\
    (WalletCall.alreadyConnected d = true ->
     snd (WalletCall.connectWallet d o st) = st) /\
    (WalletCall.alreadyConnected d = false ->
     WalletCall.isConnecting (snd (WalletCall.connectWallet d o st)) = false /\
     (v = None <->
      WalletCall.error (snd (WalletCall.connectWallet d o st)) <> None)).
Proof.
  destruct (WalletCall.alreadyConnected d) eqn:Hc.
  - exists (FarcasterWallet.address d), [].
    unfold WalletCall.connectWallet, FarcasterWallet.connectWallet.
    unfold WalletCall.alreadyConnected in Hc. rewrite Hc. simpl.
    rewrite app_nil_r. repeat split; auto; discriminate.
  - run_connectWallet Hc.
    destruct o as [mini provider wallet]; cbn.
    destruct mini as [[|]|?]; cbn;
      [destruct provider; cbn;
       [destruct wallet as [[[|a l]|]|?]; cbn;
        [| destruct (FarcasterWallet.hasFarcasterConnector d); cbn | |] |] | |];
      eexists; eexists;
      (split; [reflexivity |]);
      (split; [rewrite <- ?app_assoc; reflexivity |]);
      cbn; repeat split; auto; try discriminate; try congruence.
Qed.

(** X12: when wagmi does not already hold a connection with an address
    (else the call returns at line 59, see C8) and the call is made
    outside the host, or inside it without a host provider, the wallet
    is never asked: the call only asks the host check, returns null and
    leaves the matching message, with [isConnecting] false. *)
Theorem connectWallet_without_provider (d : FarcasterWallet.deps)
    (o : WalletCall.oracle) (st : WalletCall.state) :
  WalletCall.alreadyConnected d = false ->
  (WalletCall.on_isInMiniApp o = Fulfilled false ->
   WalletCall.connectWallet d o st
   = (Fulfilled None,
      {| WalletCall.isConnecting := false;
         WalletCall.error := Some "Not running in a Farcaster miniapp";
         WalletCall.actions :=
           WalletCall.actions st ++ [WalletCall.AskedHost] |})) /\
  (WalletCall.on_isInMiniApp o = Fulfilled true ->
   WalletCall.has_ethProvider o = false ->
   WalletCall.connectWallet d o st
   = (Fulfilled None,
      {| WalletCall.isConnecting := false;
         WalletCall.error := Some "Farcaster wallet provider not available";
         WalletCall.actions :=
           WalletCall.actions st ++ [WalletCall.AskedHost] |})).
Proof.
  intros Hc. split.
  - intros Hm. run_connectWallet Hc. rewrite Hm. reflexivity.
  - intros Hm Hp. run_connectWallet Hc. rewrite Hm. cbn. rewrite Hp. reflexivity.
Qed.

(** X13: when the provider hands back no array or an empty one, the call
    returns null with the message "No accounts returned from wallet" and
    does not activate the connector. *)
Theorem connectWallet_no_accounts (d : FarcasterWallet.deps)
    (o : WalletCall.oracle) (st : WalletCall.state) :
  WalletCall.alreadyConnected d = false ->
  WalletCall.on_isInMiniApp o = Fulfilled true ->
  WalletCall.has_ethProvider o = true ->
  WalletCall.on_eth_requestAccounts o = Fulfilled None \/
  WalletCall.on_eth_requestAccounts o = Fulfilled (Some []) ->
  WalletCall.connectWallet d o st
  = (Fulfilled None,
     {| WalletCall.isConnecting := false;
        WalletCall.error := Some "No accounts returned from wallet";
        WalletCall.actions :=
          WalletCall.actions st
          ++ [WalletCall.AskedHost; WalletCall.AskedWallet] |}).
Proof.
  intros Hc Hm Hp Hw. run_connectWallet Hc. rewrite Hm. cbn. rewrite Hp. cbn.
  destruct Hw as [-> | ->]; cbn; rewrite <- app_assoc; reflexivity.
Qed.

(** X14: when the provider hands back accounts, the call returns the
    first one as it is, leaves no error (an earlier message is cleared)
    and [isConnecting] false, and activates the connector whenever one
    with id farcasterMiniApp exists, whether or not wagmi reports a
    connection. *)
Theorem connectWallet_success (d : FarcasterWallet.deps)
    (o : WalletCall.oracle) (st : WalletCall.state)
    (account0 : string) (others : list string) :
  WalletCall.alreadyConnected d = false ->
  WalletCall.on_isInMiniApp o = Fulfilled true ->
  WalletCall.has_ethProvider o = true ->
  WalletCall.on_eth_requestAccounts o = Fulfilled (Some (account0 :: others)) ->
  WalletCall.connectWallet d o st
  = (Fulfilled (Some account0),
     {| WalletCall.isConnecting := false;
        WalletCall.error := None;
        WalletCall.actions :=
          WalletCall.actions st
          ++ [WalletCall.AskedHost; WalletCall.AskedWallet;
              WalletCall.Printed LogLevel "Wallet connected via Farcaster SDK:"]
          ++ (if FarcasterWallet.hasFarcasterConnector d
              then [WalletCall.Activated] else []) |}).
Proof.
  intros Hc Hm Hp Hw. run_connectWallet Hc. rewrite Hm. cbn. rewrite Hp. cbn.
  rewrite Hw. cbn.
  destruct (FarcasterWallet.hasFarcasterConnector d); cbn;
    rewrite <- ?app_assoc; reflexivity.
Qed.

(** X15: when the host check or the wallet request is rejected, the call
    catches the fault: it returns null, leaves [isConnecting] false and
    the message of the [Error], or "Failed to connect wallet" when what
    was thrown is no [Error]; the connector is not activated. *)
Theorem connectWallet_fault (d : FarcasterWallet.deps)
    (o : WalletCall.oracle) (st : WalletCall.state) (e : exn) :
  WalletCall.alreadyConnected d = false ->
  WalletCall.on_isInMiniApp o = Rejected e \/
  (WalletCall.on_isInMiniApp o = Fulfilled true /\
   WalletCall.has_ethProvider o = true /\
   WalletCall.on_eth_requestAccounts o = Rejected e) ->
  let after := snd (WalletCall.connectWallet d o st) in
  fst (WalletCall.connectWallet d o st) = Fulfilled None /\
  WalletCall.isConnecting after = false /\
  WalletCall.error after
  = Some (match e with
          | ErrorObject message => message
          | ThrownValue => "Failed to connect wallet"
          end) /\
  List.filter WalletCall.is_activated (WalletCall.actions after)
  = List.filter WalletCall.is_activated (WalletCall.actions st).
Proof.
  intros Hc H after. subst after. run_connectWallet Hc.
  destruct H as [Hm | (Hm & Hp & Hw)].
  - rewrite Hm. cbn. split; [reflexivity | split; [reflexivity | split]].
    + destruct e; reflexivity.
    + rewrite !List.filter_app. simpl. rewrite !app_nil_r. reflexivity.
  - rewrite Hm. cbn. rewrite Hp. cbn. rewrite Hw. cbn.
    split; [reflexivity | split; [reflexivity | split]].
    + destruct e; reflexivity.
    + rewrite !List.filter_app. simpl. rewrite !app_nil_r. reflexivity.
Qed.

(** ** [Navbar] *)

Lemma take_drop (n : nat) (s : string) :
  (Navbar.take n s ++ Navbar.drop n s)%string = s.
Proof.
  revert s. induction n as [|n IH]; intros [|c s]; simpl; try reflexivity.
  rewrite IH. reflexivity.
Qed.

Lemma length_take (n : nat) (s : string) :
  n <= String.length s -> String.length (Navbar.take n s) = n.
Proof.
  revert s. induction n as [|n IH]; intros [|c s]; simpl; intros H;
    try reflexivity; try lia.
  rewrite IH; [reflexivity | lia].
Qed.

Lemma length_drop (n : nat) (s : string) :
  String.length (Navbar.drop n s) = String.length s - n.
Proof.
  revert s. induction n as [|n IH]; intros [|c s]; simpl; try reflexivity.
  apply IH.
Qed.

Lemma drop_drop (n m : nat) (s : string) :
  Navbar.drop m (Navbar.drop n s) = Navbar.drop (n + m) s.
Proof.
  revert s. induction n as [|n IH]; intros s; simpl.
  - reflexivity.
  - destruct s as [|c s]; [destruct m; reflexivity | apply IH].
Qed.

Lemma wellFormed_shape (s : string) :
  wellFormedAddress s = true ->
  exists digits, s = String "0" (String "x" digits) /\
                 String.length digits = 40.
Proof.
  unfold wellFormedAddress, address_of.
  destruct s as [|c1 [|c2 digits]];
    try (destruct c1 as [[|] [|] [|] [|] [|] [|] [|] [|]]; discriminate);
    try discriminate.
  destruct c1 as [[|] [|] [|] [|] [|] [|] [|] [|]]; try discriminate.
  destruct c2 as [[|] [|] [|] [|] [|] [|] [|] [|]]; try discriminate.
  intros H. apply andb_prop in H. destruct H as [H _].
  apply Nat.eqb_eq in H. exists digits. split; [reflexivity | exact H].
Qed.

(** X16: what the navbar prints for an address.  A well-formed address
    is printed as 13 characters: 0x and its first four digits, three
    dots, its last four digits; the 32 digits in between are left out.
    An address of at most four characters is printed twice, around the
    dots. *)
Theorem shortAddress_of_address :
  (forall a, wellFormedAddress a = true ->
     exists first4 middle last4,
       a = ("0x" ++ first4 ++ middle ++ last4)%string /\
       String.length first4 = 4 /\
       String.length middle = 32 /\
       String.length last4 = 4 /\
       Navbar.shortAddress a = ("0x" ++ first4 ++ "..." ++ last4)%string) /\
  (forall a, String.length a <= 4 ->
     Navbar.shortAddress a = (a ++ "..." ++ a)%string).
Proof.
  split.
  - intros a Ha. destruct (wellFormed_shape a Ha) as (digits & -> & Hlen).
    exists (Navbar.take 4 digits), (Navbar.take 32 (Navbar.drop 4 digits)),
      (Navbar.drop 36 digits).
    split; [| split; [| split; [| split]]].
    + cbn [append]. do 2 f_equal.
      change (Navbar.drop 36 digits) with (Navbar.drop (4 + 32) digits).
      rewrite <- (drop_drop 4 32 digits), take_drop, take_drop. reflexivity.
    + apply length_take. lia.
    + apply length_take. rewrite length_drop. lia.
    + rewrite length_drop. lia.
    + unfold Navbar.shortAddress, Navbar.slice_first, Navbar.slice_last.
      simpl String.length. rewrite Hlen. reflexivity.
  - intros a Ha.
    unfold Navbar.shortAddress, Navbar.slice_first, Navbar.slice_last.
    replace (String.length a - 4) with 0 by lia.
    assert (Ht : Navbar.take 6 a = a).
    { do 5 (destruct a as [|? a]; [reflexivity |]). simpl in Ha. lia. }
    rewrite Ht. reflexivity.
Qed.

(** X17: the navbar over the browser flow.  Outside the host, once the
    run has ended, the user block is shown exactly when wagmi reports a
    connection with a non-empty address, and then its label is
    "@undefined": the record carries no display name and no username,
    and the template prints the missing username as the word. *)
Theorem navbar_in_browser (d : deps) (o : oracle) :
  on_isInMiniApp o = Fulfilled false ->
  let r := record_of (uninterrupted d o) in
  (isConnected d && truthy (walletAddress d) = false ->
   Navbar.userBlock r = None) /\
  (forall a, isConnected d = true -> walletAddress d = Some a ->
             a <> ""%string ->
             Navbar.userBlock r = Some ("@undefined", Navbar.shortAddress a)).
Proof.
  intros Hm r.
  assert (Hr : r = browserRecord d).
  { subst r. destruct o; simpl in Hm; subst. reflexivity. }
  rewrite Hr. unfold Navbar.userBlock, browserRecord; simpl. split.
  - intros ->. reflexivity.
  - intros a Hc Ha Hne. rewrite Hc, Ha. simpl.
    destruct a as [|c a]; [contradiction | reflexivity].
Qed.

(** X18: the navbar over the host flow.  A host user for whom no address
    could be found (no account from the wallet, no non-empty primary
    address from either profile) is not shown at all, although the
    record carries the identity; with an address, the label is the
    display name when non-empty, else the username when non-empty, else
    "@" followed by the username as the template prints it. *)
Theorem navbar_in_host (d : deps) (o : oracle) (u : FarcasterUser.t) :
  on_isInMiniApp o = Fulfilled true ->
  on_context o = Fulfilled (Some u) ->
  let r := record_of (uninterrupted d o) in
  (noLiveAccount o -> truthy (hint_of u o) = false ->
   identityOf u r /\ Navbar.userBlock r = None) /\
  (forall a, UserData.address r = Some a -> a <> ""%string ->
     Navbar.userBlock r
     = Some (if truthy (FarcasterUser.displayName u)
             then Navbar.template (FarcasterUser.displayName u)
             else if truthy (FarcasterUser.username u)
                  then Navbar.template (FarcasterUser.username u)
                  else ("@" ++ Navbar.template (FarcasterUser.username u))%string,
             Navbar.shortAddress a)).
Proof.
  intros Hm Hc r.
  destruct (host_run d o u Hm Hc) as (Hr & _). fold r in Hr.
  rewrite Hr. split.
  - intros Hno Hh. rewrite (connectedAddress_hint u o Hno).
    split; [repeat split |].
    unfold Navbar.userBlock, hostRecord; cbn [UserData.address].
    destruct (hint_of u o) as [h|]; [| reflexivity].
    rewrite Hh. reflexivity.
  - intros a Ha Hne. unfold Navbar.userBlock. rewrite Ha.
    assert (Ht : truthy (Some a) = true).
    { destruct a; [contradiction | reflexivity]. }
    rewrite Ht. f_equal. f_equal.
    unfold Navbar.label, Navbar.js_or_string, js_or; simpl.
    destruct (FarcasterUser.displayName u) as [dn|] eqn:Hdn; simpl.
    + destruct (negb (dn =? "")%string) eqn:Hd; simpl.
      * rewrite Hd. reflexivity.
      * destruct (FarcasterUser.username u) as [un|]; simpl; [| reflexivity].
        destruct (negb (un =? "")%string); reflexivity.
    + destruct (FarcasterUser.username u) as [un|]; simpl; [| reflexivity].
      destruct (negb (un =? "")%string); reflexivity.
Qed.

(** ** The further theorems at concrete inputs *)

Lemma error_only_when_not_loading_witness :
  let evs := [Render disconnected (hostOracle None (Fulfilled None));
              Settle 0; Settle 0] in
  UserData.error (record_of (run evs))
  = Some "Unable to get user data from Farcaster" /\
  UserData.isLoading (record_of (run evs)) = false.
Proof.
  split; [reflexivity |].
  apply (error_only_when_not_loading
           [Render disconnected (hostOracle None (Fulfilled None));
            Settle 0; Settle 0]
           "Unable to get user data from Farcaster" eq_refl).
Defined.

Lemma address_and_connection_agree_witness :
  truthy (UserData.address (record_of (run full_host_run))) = true /\
  UserData.isWalletConnected (record_of (run full_host_run)) = true.
Proof.
  split; [reflexivity |].
  apply (proj1 (address_and_connection_agree full_host_run) eq_refl).
Defined.

Lemma browser_run_trace_witness :
  on_isInMiniApp browserOracle = Fulfilled false /\
  own 0 (fold_left step [Unmount; Settle 0]
           (uninterrupted connected_B browserOracle))
  = [Committed (startLoading initialUserData);
     Requested isInMiniApp;
     Committed (browserRecord connected_B)].
Proof.
  split; [reflexivity |].
  apply (browser_run_trace connected_B browserOracle [Unmount; Settle 0]
           eq_refl).
Defined.

Lemma address_fallback_order_witness :
  let o := hostOracle (Some bob) (Rejected ThrownValue) in
  noLiveAccount o /\
  truthy (FarcasterUser.primaryAddress bob) = true /\
  UserData.address (record_of (uninterrupted disconnected o))
  = FarcasterUser.primaryAddress bob.
Proof.
  assert (Hno : noLiveAccount (hostOracle (Some bob) (Rejected ThrownValue))).
  { right; left. exists ThrownValue. reflexivity. }
  split; [exact Hno | split; [reflexivity |]].
  pose proof (address_fallback_order disconnected
                (hostOracle (Some bob) (Rejected ThrownValue)) bob
                eq_refl eq_refl Hno) as H.
  cbv zeta in H. destruct H as (_ & _ & H & _). apply H. reflexivity.
Defined.

Lemma connector_activated_iff_witness :
  count 0 is_connect scenario_A = 1 /\
  hasFarcasterConnector disconnected = true /\
  isConnected disconnected = false.
Proof.
  pose proof (connector_activated_iff disconnected
                (hostOracle (Some alice) (Fulfilled (Some [account_A])))
                alice eq_refl eq_refl) as H.
  cbv zeta in H. destruct H as (_ & H).
  split; [reflexivity |]. apply H. reflexivity.
Defined.

Lemma calls_follow_their_path_witness :
  exists a,
    w_attempts (run full_host_run) !! 0 = Some a /\
    In (Requested eth_requestAccounts) (own 0 (run full_host_run)) /\
    has_ethProvider (a_oracle a) = true.
Proof.
  eexists. split; [reflexivity |].
  assert (Hin : In (Requested eth_requestAccounts) (own 0 (run full_host_run))).
  { vm_compute. do 5 right. left. reflexivity. }
  split; [exact Hin |].
  pose proof (calls_follow_their_path full_host_run 0 _ eq_refl) as H.
  destruct H as (_ & _ & _ & H & _). apply (proj2 (H Hin)).
Defined.

Lemma early_cleanup_is_respected_witness :
  let o := hostOracle (Some alice) (Fulfilled (Some [account_A])) in
  on_isInMiniApp o = Fulfilled true /\
  answer_dropped 0
    (fold_left step [Settle 0; Settle 0; Settle 0]
       (run [Render disconnected o; Settle 0; Unmount])).
Proof.
  split; [reflexivity |].
  apply (proj2 (early_cleanup_is_respected disconnected
                  (hostOracle (Some alice) (Fulfilled (Some [account_A])))
                  [Settle 0; Settle 0; Settle 0]) eq_refl).
Defined.

Lemma connectWallet_without_provider_witness :
  WalletCall.alreadyConnected walletIdle = false /\
  fst (WalletCall.connectWallet walletIdle
         (walletAnswers (Fulfilled false) true (Fulfilled None))
         hookAfterFailure)
  = Fulfilled None.
Proof.
  split; [reflexivity |].
  rewrite (proj1 (connectWallet_without_provider walletIdle
                    (walletAnswers (Fulfilled false) true (Fulfilled None))
                    hookAfterFailure eq_refl) eq_refl).
  reflexivity.
Defined.

Lemma connectWallet_no_accounts_witness :
  WalletCall.alreadyConnected walletIdle = false /\
  WalletCall.error
    (snd (WalletCall.connectWallet walletIdle
            (walletAnswers (Fulfilled true) true (Fulfilled (Some [])))
            hookAfterFailure))
  = Some "No accounts returned from wallet".
Proof.
  split; [reflexivity |].
  rewrite (connectWallet_no_accounts walletIdle
             (walletAnswers (Fulfilled true) true (Fulfilled (Some [])))
             hookAfterFailure eq_refl eq_refl eq_refl (or_intror eq_refl)).
  reflexivity.
Defined.

Lemma connectWallet_success_witness :
  WalletCall.alreadyConnected walletIdle = false /\
  WalletCall.connectWallet walletIdle
    (walletAnswers (Fulfilled true) true (Fulfilled (Some [account_A])))
    hookAfterFailure
  = (Fulfilled (Some account_A),
     {| WalletCall.isConnecting := false;
        WalletCall.error := None;
        WalletCall.actions :=
          [WalletCall.AskedHost; WalletCall.AskedWallet;
           WalletCall.Printed LogLevel "Wallet connected via Farcaster SDK:";
           WalletCall.Activated] |}).
Proof.
  split; [reflexivity |].
  apply (connectWallet_success walletIdle
           (walletAnswers (Fulfilled true) true (Fulfilled (Some [account_A])))
           hookAfterFailure account_A [] eq_refl eq_refl eq_refl eq_refl).
Defined.

Lemma connectWallet_fault_witness :
  WalletCall.alreadyConnected walletIdle = false /\
  WalletCall.error
    (snd (WalletCall.connectWallet walletIdle
            (walletAnswers (Fulfilled true) true
               (Rejected (ErrorObject "User rejected the request")))
            hookAfterFailure))
  = Some "User rejected the request".
Proof.
  split; [reflexivity |].
  pose proof (connectWallet_fault walletIdle
                (walletAnswers (Fulfilled true) true
                   (Rejected (ErrorObject "User rejected the request")))
                hookAfterFailure (ErrorObject "User rejected the request")
                eq_refl (or_intror (conj eq_refl (conj eq_refl eq_refl))))
    as H.
  cbv zeta in H. destruct H as (_ & _ & H & _). exact H.
Defined.

Lemma shortAddress_of_address_witness :
  wellFormedAddress account_A = true /\
  exists first4 middle last4,
    account_A = ("0x" ++ first4 ++ middle ++ last4)%string /\
    String.length first4 = 4 /\
    String.length middle = 32 /\
    String.length last4 = 4 /\
    Navbar.shortAddress account_A = ("0x" ++ first4 ++ "..." ++ last4)%string.
Proof.
  split; [reflexivity |].
  apply (proj1 shortAddress_of_address account_A eq_refl).
Defined.

Lemma navbar_in_browser_witness :
  on_isInMiniApp browserOracle = Fulfilled false /\
  Navbar.userBlock (record_of (uninterrupted connected_B browserOracle))
  = Some ("@undefined", Navbar.shortAddress account_B).
Proof.
  split; [reflexivity |].
  pose proof (navbar_in_browser connected_B browserOracle eq_refl) as H.
  cbv zeta in H. destruct H as (_ & H).
  apply (H account_B eq_refl eq_refl). discriminate.
Defined.

Lemma navbar_in_host_witness :
  let o := hostOracle (Some alice) (Rejected ThrownValue) in
  noLiveAccount o /\
  truthy (hint_of alice o) = false /\
  UserData.username (record_of (uninterrupted disconnected o)) = Some "alice" /\
  Navbar.userBlock (record_of (uninterrupted disconnected o)) = None.
Proof.
  assert (Hno : noLiveAccount (hostOracle (Some alice) (Rejected ThrownValue))).
  { right; left. exists ThrownValue. reflexivity. }
  split; [exact Hno | split; [reflexivity |]].
  pose proof (navbar_in_host disconnected
                (hostOracle (Some alice) (Rejected ThrownValue)) alice
                eq_refl eq_refl) as H.
  cbv zeta in H. destruct H as (H & _).
  destruct (H Hno eq_refl) as ((_ & Hu & _) & Hb).
  split; [exact Hu | exact Hb].
Defined.
